(** * kbd_release.py: key-release inference from terminal key repeat

    A shallow embedding of [src/kbd_release.py] and the properties of its
    calibration routine ([calibrate_keyboard_delays]) and of its polling
    event loop ([select_key_events]).

    Conventions of the embedding:
    - Python [int] is [Z]; [//] is [Z.div] (both floor), [~] is [Z.lnot].
    - Python [float] is IEEE 754 binary64 ([spec_float], precision 53),
      every operation rounded to nearest, ties to even; [round] is Python's
      round-half-to-even.
    - Key codes are the strings returned by [sys.stdin.read].
    - [dict] and [defaultdict] are insertion-ordered association lists
      ([Dict]); a [defaultdict] lookup of a missing key inserts the default.
    - Exceptions and mutable state are threaded by a state-and-exception
      monad [M]; the state reached when an exception escapes is kept.
    - What the operating system answers to the calls of one pass of the
      loop is given by a record [io], call by call; a call that raises
      leaves the terminal as it is.  In [calibrate_keyboard_delays] the
      calls on the terminal and the reads of the samples are taken to
      succeed, and the [input()] at its end may meet the end of the input.
    - [sum] over [float]s is plain addition from left to right before
      CPython 3.12 and compensated from 3.12 on; the program is verified for
      both ([compensated_sum]).
    - Console output of the calibration prompts is not modelled. *)

From Stdlib Require Import ZArith List String Ascii Bool Lia SpecFloat.
Import ListNotations.
Local Open Scope Z_scope.

(** ** Insertion-ordered dictionaries *)

Module Dict.

Definition dict (V : Type) : Type := list (string * V).

Definition empty {V : Type} : dict V := [].

(** [d[k]] on a plain dict, [None] when [k] is missing. *)
Fixpoint get {V : Type} (d : dict V) (k : string) : option V :=
  match d with
  | [] => None
  | (k', v) :: r => if String.eqb k' k then Some v else get r k
  end.

(** [d[k] = v]: overwrite in place, or append a new key at the end. *)
Fixpoint set {V : Type} (d : dict V) (k : string) (v : V) : dict V :=
  match d with
  | [] => [(k, v)]
  | (k', v') :: r =>
      if String.eqb k' k then (k', v) :: r else (k', v') :: set r k v
  end.

(** [k in d] *)
Definition mem {V : Type} (d : dict V) (k : string) : bool :=
  match get d k with Some _ => true | None => false end.

(** [d.keys()], in insertion order. *)
Definition keys {V : Type} (d : dict V) : list string := map fst d.

(** The value [d[k]] would have on a [defaultdict] with default [dflt],
    without the insertion. *)
Definition peek {V : Type} (dflt : V) (d : dict V) (k : string) : V :=
  match get d k with Some v => v | None => dflt end.

(** [d[k]] on a [defaultdict] whose factory yields [dflt]: a missing key is
    inserted with the default. *)
Definition getitem_default {V : Type} (dflt : V) (d : dict V) (k : string)
  : V * dict V :=
  match get d k with
  | Some v => (v, d)
  | None => (dflt, set d k dflt)
  end.

Fixpoint uniqueb (l : list string) : bool :=
  match l with
  | [] => true
  | k :: r => negb (existsb (String.eqb k) r) && uniqueb r
  end.

End Dict.

(** ** Exceptions, results and the state-and-exception monad *)

Inductive exn : Type :=
| IndexError
| ZeroDivisionError
| OverflowError
| ValueError
| EOFError
| KeyError (k : string)
| TermiosError        (* termios.error *)
| OSError             (* fcntl / select / read failure *)
| HookError.          (* an exception raised by a callback *)

Inductive res (A : Type) : Type :=
| Ret (a : A)
| Raise (e : exn).
Arguments Ret {A} a.
Arguments Raise {A} e.

Definition M (S A : Type) : Type := S -> res A * S.

Definition ret {S A : Type} (a : A) : M S A := fun s => (Ret a, s).

Definition raise {S A : Type} (e : exn) : M S A := fun s => (Raise e, s).

Definition bind {S A B : Type} (c : M S A) (k : A -> M S B) : M S B :=
  fun s =>
    match c s with
    | (Ret a, s') => k a s'
    | (Raise e, s') => (Raise e, s')
    end.

Definition gets {S A : Type} (f : S -> A) : M S A := fun s => (Ret (f s), s).

Definition modify {S : Type} (f : S -> S) : M S unit := fun s => (Ret tt, f s).

Declare Scope py_scope.
Delimit Scope py_scope with py.
Notation "x <- c ;; k" := (bind c (fun x => k))
  (at level 61, c at next level, right associativity) : py_scope.
Notation "c ;; k" := (bind c (fun _ => k))
  (at level 61, right associativity) : py_scope.
Local Open Scope py_scope.

(** [try: body finally: fin].  The [finally] suite always runs, in the state
    the body left; an exception of the body is re-raised after it, unless the
    [finally] suite raises itself. *)
Definition try_finally {S A : Type} (body : M S A) (fin : M S unit) : M S A :=
  fun s =>
    match body s with
    | (r, s') =>
        match fin s' with
        | (Ret _, s'') => (r, s'')
        | (Raise e, s'') => (Raise e, s'')
        end
    end.

(** [for x in l: body x]; an exception leaves the loop. *)
Fixpoint for_each {S A : Type} (l : list A) (body : A -> M S unit) : M S unit :=
  match l with
  | [] => ret tt
  | x :: r => body x ;; for_each r body
  end.

(** A computation without state: its result, or its exception. *)
Definition and_then {A B : Type} (r : res A) (k : A -> res B) : res B :=
  match r with
  | Ret a => k a
  | Raise e => Raise e
  end.

Definition lift {S A : Type} (r : res A) : M S A := fun s => (r, s).

(** ** Numbers of the calibration

    Python's [float] is IEEE 754 binary64: [spec_float] with a precision of
    53 bits and exponents below 1024, every operation rounded to nearest,
    ties to even.  The operations below work on the value [m * 2^e] of a
    number, whether its mantissa is normalised or not. *)

Definition float : Type := spec_float.

Definition float_add : float -> float -> float := SFadd 53 1024.
Definition float_sub : float -> float -> float := SFsub 53 1024.
Definition float_mul : float -> float -> float := SFmul 53 1024.

Definition is_infinite (x : float) : bool :=
  match x with S754_infinity _ => true | _ => false end.

Definition is_zero (x : float) : bool :=
  match x with S754_zero _ => true | _ => false end.

(** An [int] as a binary number, not rounded. *)
Definition exact_of_int (z : Z) : spec_float :=
  match z with
  | Z0 => S754_zero false
  | Zpos p => S754_finite false p 0
  | Zneg p => S754_finite true p 0
  end.

(** The [float] nearest to [a / b]; for one, the literal [0.3] is
    [float_of_ratio 3 10]. *)
Definition float_of_ratio (a b : Z) : float :=
  SFdiv 53 1024 (exact_of_int a) (exact_of_int b).

(** An [int] operand of a [float] operation is converted: to the nearest
    [float], and with [OverflowError] when it is too large. *)
Definition float_of_int (z : Z) : res float :=
  let x := binary_normalize 53 1024 z 0 false in
  if is_infinite x then Raise OverflowError else Ret x.

(** The constants [1] and [1000] as [float] operands. *)
Definition float_1 : float :=
  Eval vm_compute in binary_normalize 53 1024 1 0 false.
Definition float_1000 : float :=
  Eval vm_compute in binary_normalize 53 1024 1000 0 false.

(** [a / b] on two [int]s: the correctly rounded quotient. *)
Definition int_truediv (a b : Z) : res float :=
  if b =? 0 then Raise ZeroDivisionError
  else
    let q := float_of_ratio a b in
    if is_infinite q then Raise OverflowError else Ret q.

(** [x / b] with [x] a [float] and [b] an [int]. *)
Definition py_truediv (x : float) (b : Z) : res float :=
  and_then (float_of_int b) (fun y =>
  if is_zero y then Raise ZeroDivisionError else Ret (SFdiv 53 1024 x y)).

(** Python's [round(x)] on a [float]: to the nearest integer, ties to the
    even one; infinities and NaN have no integer. *)
Definition py_round (x : float) : res Z :=
  match x with
  | S754_zero _ => Ret 0
  | S754_infinity _ => Raise OverflowError
  | S754_nan => Raise ValueError
  | S754_finite s m e =>
      let n :=
        match e with
        | Zneg p =>
            let d := Z.pow_pos 2 p in
            let q := Zpos m / d in
            match 2 * (Zpos m mod d) ?= d with
            | Lt => q
            | Gt => q + 1
            | Eq => if Z.even q then q else q + 1
            end
        | _ => Zpos m * 2 ^ e
        end in
      Ret (if s then - n else n)
  end.

(** [fabs(x) >= fabs(y)] *)
Definition abs_geb (x y : float) : bool :=
  match x, y with
  | S754_nan, _ | _, S754_nan => false
  | S754_infinity _, _ => true
  | _, S754_infinity _ => false
  | _, S754_zero _ => true
  | S754_zero _, S754_finite _ _ _ => false
  | S754_finite _ mx ex, S754_finite _ my ey =>
      let ez := Z.min ex ey in
      Zpos my * 2 ^ (ey - ez) <=? Zpos mx * 2 ^ (ex - ez)
  end.

(** The loop of [sum] over [float]s from CPython 3.12 on (Neumaier's
    compensated summation): [total] is the running sum, [c] the running
    compensation, which is added at the end if it is finite and not zero. *)
Fixpoint sum_compensated (l : list float) (total c : float) : float :=
  match l with
  | [] =>
      match c with
      | S754_finite _ _ _ => float_add total c
      | _ => total
      end
  | x :: r =>
      let t := float_add total x in
      let c' :=
        if abs_geb total x
        then float_add c (float_add (float_sub total t) x)
        else float_add c (float_add (float_sub x t) total) in
      sum_compensated r t c'
  end.

(** [sum(l)] on a list of [float]s: it starts from the [int] [0] and adds
    from left to right; before CPython 3.12 plainly, from 3.12 on with
    compensation ([compensated]).  On the empty list the result is the
    [int] [0], which [S754_zero false] stands for. *)
Definition py_sum (compensated : bool) (l : list float) : float :=
  match l with
  | [] => S754_zero false
  | x :: r =>
      let first := float_add (S754_zero false) x in
      if compensated then sum_compensated r first (S754_zero false)
      else fold_left float_add r first
  end.

(** [l[i]] on a list. *)
Definition py_index {S A : Type} (l : list A) (i : nat) : M S A :=
  match nth_error l i with
  | Some a => ret a
  | None => raise IndexError
  end.

(** [1 + error/100] *)
Definition margin_factor (error : Z) : res float :=
  and_then (int_truediv error 100) (fun q => Ret (float_add float_1 q)).

(** [input()]: the line read, or [EOFError] at the end of the input
    ([None]). *)
Definition py_input (line : option string) : res string :=
  match line with
  | Some s => Ret s
  | None => Raise EOFError
  end.


Definition spec_initialDelayMs (t : list float) (marginPercent : Z) : res Z :=
  and_then (int_truediv marginPercent 100) (fun q =>
  py_round
    (float_mul
       (float_mul (float_sub (nth 1 t (S754_zero false)) (nth 0 t (S754_zero false)))
                  float_1000)
       (float_add float_1 q))).


(** ** Lines 29-32: the poll timeout *)

(** [select_timeout_ms == -1] means auto: a quarter of the repeat delay, and
    [1] when that is not positive.  Any other value is used as given. *)
Definition resolve_timeout (select_timeout_ms kbd_repeat_delay_ms : Z) : Z :=
  if select_timeout_ms =? -1 then
    let t := kbd_repeat_delay_ms / 4 in
    if t <=? 0 then 1 else t
  else select_timeout_ms.

(** ** Callbacks and hook registries *)

(** A zero-argument callback, by what can be observed of a call: the lines it
    prints and whether it raises. *)
Record callback : Type := mk_callback {
  cb_prints : list string;
  cb_raises : bool
}.

(** [lambda: None] *)
Definition noop : callback := {| cb_prints := []; cb_raises := false |}.

(** A hook table: a [dict], or a [defaultdict] whose factory returns the
    callback [d] ([default_factory = Some d]). *)
Record registry : Type := mk_registry {
  entries : Dict.dict callback;
  default_factory : option callback
}.

(** Line 96: [defaultdict(lambda: lambda: None)] *)
Definition new_hooks : registry :=
  {| entries := Dict.empty; default_factory := Some noop |}.

(** [hooks[k] = cb] *)
Definition register (r : registry) (k : string) (cb : callback) : registry :=
  {| entries := Dict.set (entries r) k cb; default_factory := default_factory r |}.

Inductive hook_kind : Type := Press | Release.

(** One call of a callback: from which table, for which key, and which
    callback ran. *)
Definition call : Type := (hook_kind * string * callback)%type.

Definition hook_kind_eqb (a b : hook_kind) : bool :=
  match a, b with
  | Press, Press | Release, Release => true
  | _, _ => false
  end.

(** Number of calls of the [kind] hook of key [k] in a log. *)
Definition count_calls (kind : hook_kind) (k : string) (log : list call) : nat :=
  List.length
    (filter (fun c => hook_kind_eqb (fst (fst c)) kind && String.eqb (snd (fst c)) k)
            log).

(** What the calls of a log printed. *)
Definition output (log : list call) : list string :=
  flat_map (fun c => cb_prints (snd c)) log.

(** The sentinel ['\004'] (CTRL-D). *)
Definition EOT : string := String (Ascii.ascii_of_nat 4) EmptyString.

(** ** The program, over the platform's terminal interface *)

Section Program.

(** The attribute list of [termios.tcgetattr], the mode change of
    [tty.setcbreak] on it, and the flag bit [os.O_NONBLOCK] are the
    platform's. *)
Variable attrs : Type.
Variable cbreak : attrs -> attrs.
Variable O_NONBLOCK : Z.

(** Whether the interpreter's [sum] compensates on [float]s (CPython 3.12
    and later) or adds plainly (earlier versions). *)
Variable compensated_sum : bool.

(** The controlling terminal behind [sys.stdin]: its mode, and the status
    flags of the descriptor. *)
Record terminal : Type := mk_terminal {
  t_attrs : attrs;
  t_flags : Z
}.

(** Lines 13-15 *)
Definition set_nonblocking (t : terminal) : terminal :=
  let flags := t_flags t in
  {| t_attrs := t_attrs t; t_flags := Z.lor flags O_NONBLOCK |}.

(** Lines 17-19 *)
Definition set_blocking (t : terminal) : terminal :=
  let flags := t_flags t in
  {| t_attrs := t_attrs t; t_flags := Z.land flags (Z.lnot O_NONBLOCK) |}.

(** [termios.tcsetattr(fd, termios.TCSAFLUSH, a)] *)
Definition tcsetattr (a : attrs) (t : terminal) : terminal :=
  {| t_attrs := a; t_flags := t_flags t |}.

(** [tty.setcbreak(fd)], when it succeeds. *)
Definition setcbreak (t : terminal) : terminal :=
  tcsetattr (cbreak (t_attrs t)) t.

(** *** Lines 72-94: [calibrate_keyboard_delays]

    [stdin i] is what the [i]-th pass of the sampling loop appends to
    [chars]: the character read and the value of [time.monotonic()];
    [line] is what the [input()] of line 93 reads, [None] at the end of the
    input.  The calls on the terminal are taken to succeed. *)
Definition calibrate_keyboard_delays (n error : Z) (stdin : nat -> string * float)
    (line : option string) : M terminal (Z * Z) :=
  orig <- gets t_attrs ;;
  chars <- try_finally
             (modify setcbreak ;;
              ret (map stdin (seq 0 (Z.to_nat n))))
             (modify (tcsetattr orig)) ;;
  c1 <- py_index chars 1 ;;
  c0 <- py_index chars 0 ;;
  m <- lift (margin_factor error) ;;
  kbd_init_delay_ms <-
    lift (py_round
            (float_mul (float_mul (float_sub (snd c1) (snd c0)) float_1000) m)) ;;
  let deltas :=
    map (fun ab => float_sub (snd (snd ab)) (snd (fst ab)))
        (combine (skipn 1 chars) (skipn 2 chars)) in
  mean <- lift (py_truediv (py_sum compensated_sum deltas)
                           (Z.of_nat (List.length deltas))) ;;
  m' <- lift (margin_factor error) ;;
  kbd_repeat_delay_ms <-
    lift (py_round (float_mul (float_mul mean float_1000) m')) ;;
  lift (py_input line) ;;
  ret (kbd_init_delay_ms, kbd_repeat_delay_ms).

(** The input of a calibration whose reads return the samples of [l]. *)
Definition stdin_of (l : list (string * float)) : nat -> string * float :=
  fun i => nth i l (EmptyString, S754_zero false).

(** Lines 90-94 as a function of the samples read. *)
Definition delays_of_chars (chars : list (string * float)) (error : Z)
    (line : option string) : res (Z * Z) :=
  match chars with
  | c0 :: c1 :: rest =>
      and_then (margin_factor error) (fun m =>
      and_then (py_round
                  (float_mul (float_mul (float_sub (snd c1) (snd c0)) float_1000)
                             m)) (fun ki =>
      and_then (py_truediv
                  (py_sum compensated_sum
                     (map (fun ab => float_sub (snd (snd ab)) (snd (fst ab)))
                          (combine (c1 :: rest) rest)))
                  (Z.of_nat (List.length rest))) (fun mean =>
      and_then (margin_factor error) (fun m' =>
      and_then (py_round (float_mul (float_mul mean float_1000) m')) (fun kr =>
      and_then (py_input line) (fun _ => Ret (ki, kr)))))))
  | _ => Raise IndexError
  end.

(** *** Lines 21-70: [select_key_events] *)

Record config : Type := mk_config {
  kbd_init_delay_ms : Z;
  kbd_repeat_delay_ms : Z;
  select_timeout_ms : Z        (* after line 32 *)
}.

(** Everything the loop reads and writes: its three [defaultdict]s, the two
    hook tables it was given, the calls of callbacks so far, and the
    terminal. *)
Record world : Type := mk_world {
  pressed : Dict.dict bool;
  is_first_keypress : Dict.dict bool;
  current_delay_ms : Dict.dict Z;
  up_hooks : registry;
  down_hooks : registry;
  fired : list call;
  term : terminal
}.

Definition with_pressed (f : Dict.dict bool -> Dict.dict bool) (w : world) : world :=
  mk_world (f (pressed w)) (is_first_keypress w) (current_delay_ms w)
           (up_hooks w) (down_hooks w) (fired w) (term w).

Definition with_is_first_keypress (f : Dict.dict bool -> Dict.dict bool) (w : world)
  : world :=
  mk_world (pressed w) (f (is_first_keypress w)) (current_delay_ms w)
           (up_hooks w) (down_hooks w) (fired w) (term w).

Definition with_current_delay_ms (f : Dict.dict Z -> Dict.dict Z) (w : world) : world :=
  mk_world (pressed w) (is_first_keypress w) (f (current_delay_ms w))
           (up_hooks w) (down_hooks w) (fired w) (term w).

Definition with_down_hooks (f : registry -> registry) (w : world) : world :=
  mk_world (pressed w) (is_first_keypress w) (current_delay_ms w)
           (up_hooks w) (f (down_hooks w)) (fired w) (term w).

Definition with_fired (f : list call -> list call) (w : world) : world :=
  mk_world (pressed w) (is_first_keypress w) (current_delay_ms w)
           (up_hooks w) (down_hooks w) (f (fired w)) (term w).

Definition with_term (f : terminal -> terminal) (w : world) : world :=
  mk_world (pressed w) (is_first_keypress w) (current_delay_ms w)
           (up_hooks w) (down_hooks w) (fired w) (f (term w)).

(** Lines 33-35: the state of a fresh loop. *)
Definition initial_world (up down : registry) (t : terminal) : world :=
  mk_world Dict.empty Dict.empty Dict.empty up down [] t.

(** The tracked state of one key, as a lookup would see it:
    [pressed] defaults to [False], [is_first_keypress] to [True],
    [current_delay_ms] to [0]. *)
Definition is_pressed (w : world) (k : string) : bool :=
  Dict.peek false (pressed w) k.

Definition is_first (w : world) (k : string) : bool :=
  Dict.peek true (is_first_keypress w) k.

Definition elapsed (w : world) (k : string) : Z :=
  Dict.peek 0 (current_delay_ms w) k.

(** [pressed[chars]] *)
Definition read_pressed (chars : string) : M world bool :=
  fun w =>
    let (v, d) := Dict.getitem_default false (pressed w) chars in
    (Ret v, with_pressed (fun _ => d) w).

(** [is_first_keypress[chars]] *)
Definition read_is_first_keypress (chars : string) : M world bool :=
  fun w =>
    let (v, d) := Dict.getitem_default true (is_first_keypress w) chars in
    (Ret v, with_is_first_keypress (fun _ => d) w).

(** [current_delay_ms[chars]] *)
Definition read_current_delay_ms (chars : string) : M world Z :=
  fun w =>
    let (v, d) := Dict.getitem_default 0 (current_delay_ms w) chars in
    (Ret v, with_current_delay_ms (fun _ => d) w).

(** Calling a callback: the call is logged, and the callback returns or
    raises. *)
Definition invoke (kind : hook_kind) (chars : string) (cb : callback) : M world unit :=
  modify (with_fired (fun log => log ++ [(kind, chars, cb)])) ;;
  if cb_raises cb then raise HookError else ret tt.

(** Line 49-50: [if chars in up_hooks: up_hooks[chars]()] *)
Definition call_up_hook (chars : string) : M world unit :=
  hooks <- gets up_hooks ;;
  match Dict.get (entries hooks) chars with
  | Some cb => invoke Press chars cb
  | None => ret tt
  end.

(** Lines 61 and 65: [down_hooks[chars]()].  The lookup is unguarded: on a
    [defaultdict] a missing key is inserted with the factory's callback, on a
    plain [dict] it raises [KeyError]. *)
Definition call_down_hook (chars : string) : M world unit :=
  hooks <- gets down_hooks ;;
  match Dict.get (entries hooks) chars with
  | Some cb => invoke Release chars cb
  | None =>
      match default_factory hooks with
      | Some cb =>
          modify (with_down_hooks (fun r => register r chars cb)) ;;
          invoke Release chars cb
      | None => raise (KeyError chars)
      end
  end.

(** Lines 47-54: an event for [chars] was read. *)
Definition on_event (chars : string) : M world unit :=
  modify (with_current_delay_ms (fun d => Dict.set d chars 0)) ;;
  p <- read_pressed chars ;;
  if negb p then
    call_up_hook chars ;;
    modify (with_pressed (fun d => Dict.set d chars true)) ;;
    modify (with_is_first_keypress (fun d => Dict.set d chars true))
  else
    modify (with_is_first_keypress (fun d => Dict.set d chars false)).

(** Lines 57-67: the body of the loop over [pressed.keys()]. *)
Definition tick_key (cfg : config) (chars : string) : M world unit :=
  p <- read_pressed chars ;;
  if p then
    d <- read_current_delay_ms chars ;;
    modify (with_current_delay_ms
              (fun m => Dict.set m chars (d + select_timeout_ms cfg))) ;;
    f <- read_is_first_keypress chars ;;
    if f then
      d' <- read_current_delay_ms chars ;;
      if d' >? kbd_init_delay_ms cfg then
        call_down_hook chars ;;
        modify (with_pressed (fun m => Dict.set m chars false))
      else ret tt
    else
      d' <- read_current_delay_ms chars ;;
      if d' >? kbd_repeat_delay_ms cfg then
        call_down_hook chars ;;
        modify (with_pressed (fun m => Dict.set m chars false)) ;;
        modify (with_is_first_keypress (fun m => Dict.set m chars true))
      else ret tt
  else ret tt.

(** Lines 56-67: no input within the timeout. *)
Definition on_tick (cfg : config) : M world unit :=
  ks <- gets (fun w => Dict.keys (pressed w)) ;;
  for_each ks (tick_key cfg).

(** What the operating system answers during one pass of the loop, call by
    call: whether [termios.tcgetattr] (line 39), the [fcntl] calls of
    [set_nonblocking] (line 40) and [tty.setcbreak] (line 42) raise, the
    result of [select.select] ([None] when it raises, otherwise whether
    stdin is ready), the result of [sys.stdin.read(3)] ([None] when it
    raises), and whether [termios.tcsetattr] (line 69) and the [fcntl] calls
    of [set_blocking] (line 70) raise.  A call that raises leaves the
    terminal as it is. *)
Record io : Type := mk_io {
  io_tcgetattr_raises : bool;
  io_set_nonblocking_raises : bool;
  io_setcbreak_raises : bool;
  io_select : option bool;
  io_read : option string;
  io_tcsetattr_raises : bool;
  io_set_blocking_raises : bool
}.

(** stdin delivers [chars], and every call on the terminal succeeds. *)
Definition Input (chars : string) : io :=
  mk_io false false false (Some true) (Some chars) false false.

(** The timeout passes without input, and every call on the terminal
    succeeds. *)
Definition Timeout : io := mk_io false false false (Some false) None false false.

Inductive control : Type := Continue | Break.

(** Lines 42-67: the [try] suite. *)
Definition guarded (cfg : config) (e : io) : M world control :=
  (if io_setcbreak_raises e then raise TermiosError
   else modify (with_term setcbreak)) ;;
  ready <- match io_select e with
           | Some b => ret b
           | None => raise OSError
           end ;;
  if (ready : bool) then
    chars <- match io_read e with
             | Some s => ret s
             | None => raise OSError
             end ;;
    if String.eqb chars EOT then ret Break
    else on_event chars ;; ret Continue
  else on_tick cfg ;; ret Continue.

(** Lines 69-70: the [finally] suite.  When [termios.tcsetattr] raises,
    [set_blocking] is not reached. *)
Definition release (e : io) (orig : attrs) : M world unit :=
  (if io_tcsetattr_raises e then raise TermiosError
   else modify (with_term (tcsetattr orig))) ;;
  (if io_set_blocking_raises e then raise OSError
   else modify (with_term set_blocking)).

(** Lines 38-70: one pass of the [while True] loop. *)
Definition iteration (cfg : config) (e : io) : M world control :=
  orig <- (if io_tcgetattr_raises e then raise TermiosError
           else gets (fun w => t_attrs (term w))) ;;
  (if io_set_nonblocking_raises e then raise OSError
   else modify (with_term set_nonblocking)) ;;
  try_finally (guarded cfg e) (release e orig).

(** How a run over a finite script of answers ends: the function returned,
    or the loop is still running when the script is used up. *)
Inductive status : Type := Returned | Running.

(** Lines 37-70: the loop. *)
Fixpoint event_loop (cfg : config) (script : list io) : M world status :=
  match script with
  | [] => ret Running
  | e :: rest =>
      c <- iteration cfg e ;;
      match c with
      | Break => ret Returned
      | Continue => event_loop cfg rest
      end
  end.

(** Lines 21-70 *)
Definition select_key_events (up down : registry)
    (kbd_init_delay_ms kbd_repeat_delay_ms select_timeout_ms : Z)
    (script : list io) (t : terminal) : res status * world :=
  let cfg := mk_config kbd_init_delay_ms kbd_repeat_delay_ms
                       (resolve_timeout select_timeout_ms kbd_repeat_delay_ms) in
  event_loop cfg script (initial_world up down t).

(** *** Vocabulary of the statements *)

(** No key occurs twice in [pressed]. *)
Definition wf (w : world) : Prop :=
  Dict.uniqueb (Dict.keys (pressed w)) = true.

(** The comparison of lines 59-64: the threshold that applies to a pressed
    key whose delay has reached [d]. *)
Definition expired (cfg : config) (first : bool) (d : Z) : bool :=
  if first then d >? kbd_init_delay_ms cfg else d >? kbd_repeat_delay_ms cfg.

(** The calls on the terminal outside the [try] suite (lines 39-40 and
    69-70) all succeed. *)
Definition session_calls_succeed (e : io) : bool :=
  negb (io_tcgetattr_raises e) && negb (io_set_nonblocking_raises e)
  && negb (io_tcsetattr_raises e) && negb (io_set_blocking_raises e).

(** The characters a pass reads, if it reads and no call on the terminal
    raises. *)
Definition reads (e : io) : option string :=
  if session_calls_succeed e then
    if io_setcbreak_raises e then None
    else match io_select e with
         | Some true => io_read e
         | _ => None
         end
  else None.

(** The pass finds no input within the timeout, and no call on the terminal
    raises. *)
Definition is_timeout (e : io) : bool :=
  session_calls_succeed e && negb (io_setcbreak_raises e) &&
  match io_select e with Some false => true | _ => false end.

(** The time the timeouts of a script add to the delay of a pressed key. *)
Definition ticked_ms (cfg : config) (script : list io) : Z :=
  Z.of_nat (List.length (filter is_timeout script)) * select_timeout_ms cfg.

(** [n] events for [X], each followed by [j] timeouts. *)
Fixpoint cycles (X : string) (j n : nat) : list io :=
  match n with
  | O => []
  | S n' => Input X :: repeat Timeout j ++ cycles X j n'
  end.

(** The world inside the [try] suite, once [tty.setcbreak] has succeeded,
    and the world after the [finally] suite of a pass that started in
    [w0]. *)
Definition acquired (w : world) : world :=
  with_term (fun t => setcbreak (set_nonblocking t)) w.

Definition restored (w0 w : world) : world :=
  with_term (fun t => set_blocking (tcsetattr (t_attrs (term w0)) t)) w.

(** The result of a pass whose suite ended with [r]. *)
Definition continue_after (r : res unit) : res control :=
  match r with
  | Ret _ => Ret Continue
  | Raise x => Raise x
  end.

(** A key that is not pressed is on its first keypress. *)
Definition released_keys_first (w : world) : Prop :=
  forall k, is_pressed w k = false -> is_first w k = true.

(** No callback of the hook tables raises, and [down_hooks] is a
    [defaultdict] whose factory makes a callback that does not raise. *)
Definition hooks_ok (w : world) : Prop :=
  (forall k cb, Dict.get (entries (up_hooks w)) k = Some cb -> cb_raises cb = false)
  /\ (forall k cb, Dict.get (entries (down_hooks w)) k = Some cb ->
                  cb_raises cb = false)
  /\ exists d, default_factory (down_hooks w) = Some d /\ cb_raises d = false.

(** A pass that times out, or reads a key. *)
Definition live_pass (e : io) : Prop :=
  is_timeout e = true \/ exists c, reads e = Some c /\ c <> EOT.

(** ** Properties *)

(** *** Dictionaries *)

Section DictFacts.
Import Dict.

Section Facts.
Context {V : Type}.
Implicit Types (d : dict V) (k : string) (v : V).

Lemma get_set_same d k v : get (set d k v) k = Some v.
Proof.
  induction d as [|[k' v'] d IH]; simpl.
  - now rewrite String.eqb_refl.
  - destruct (String.eqb k' k) eqn:E; simpl; now rewrite E.
Qed.

Lemma get_set_other d k k' v : k <> k' -> get (set d k v) k' = get d k'.
Proof.
  intros N. induction d as [|[k0 v0] d IH]; simpl.
  - destruct (String.eqb_spec k k'); [contradiction|reflexivity].
  - destruct (String.eqb_spec k0 k) as [->|_]; simpl.
    + destruct (String.eqb_spec k k'); [contradiction|reflexivity].
    + now rewrite IH.
Qed.

Lemma peek_set_same dflt d k v : peek dflt (set d k v) k = v.
Proof. unfold peek. now rewrite get_set_same. Qed.

Lemma peek_set_other dflt d k k' v :
  k <> k' -> peek dflt (set d k v) k' = peek dflt d k'.
Proof. intros N. unfold peek. now rewrite get_set_other. Qed.

(** Inserting the default does not change what lookups see. *)
Lemma peek_set_default dflt d k k' :
  get d k = None -> peek dflt (set d k dflt) k' = peek dflt d k'.
Proof.
  intros E. destruct (String.eqb_spec k k') as [<-|N].
  - rewrite peek_set_same. unfold peek. now rewrite E.
  - now apply peek_set_other.
Qed.

Lemma get_Some_In_keys d k v : get d k = Some v -> In k (keys d).
Proof.
  induction d as [|[k' v'] d IH]; simpl; [discriminate|].
  destruct (String.eqb_spec k' k) as [->|_]; auto.
Qed.

Lemma get_None_not_In_keys d k : get d k = None -> ~ In k (keys d).
Proof.
  induction d as [|[k' v'] d IH]; simpl; [tauto|].
  destruct (String.eqb_spec k' k) as [->|N]; [discriminate|].
  intros E [H|H]; [congruence|]. now apply IH.
Qed.

(** Overwriting a present key keeps the order of the keys. *)
Lemma keys_set_present d k v : In k (keys d) -> keys (set d k v) = keys d.
Proof.
  induction d as [|[k' v'] d IH]; simpl; [tauto|].
  destruct (String.eqb_spec k' k) as [->|N]; [reflexivity|].
  intros [H|H]; [congruence|]. simpl. now rewrite IH.
Qed.

(** A new key goes to the end. *)
Lemma keys_set_absent d k v : get d k = None -> keys (set d k v) = keys d ++ [k].
Proof.
  induction d as [|[k' v'] d IH]; simpl; [reflexivity|].
  destruct (String.eqb_spec k' k) as [->|N]; [discriminate|].
  intros E. simpl. now rewrite IH.
Qed.

End Facts.

Lemma uniqueb_NoDup (l : list string) : uniqueb l = true <-> NoDup l.
Proof.
  induction l as [|k l IH]; simpl.
  - split; [constructor|reflexivity].
  - rewrite andb_true_iff, negb_true_iff, IH. split.
    + intros [E H]. constructor; [|exact H].
      intros I. assert (X : existsb (String.eqb k) l = true).
      { apply existsb_exists. exists k. split; [exact I|apply String.eqb_refl]. }
      congruence.
    + intros H. inversion H as [|? ? N D]; subst. split; [|exact D].
      destruct (existsb (String.eqb k) l) eqn:E; [|reflexivity].
      apply existsb_exists in E. destruct E as [x [I E]].
      apply String.eqb_eq in E. subst. contradiction.
Qed.

End DictFacts.

(** *** The poll timeout *)

(** C8: with [select_timeout_ms] left at [-1] and a positive repeat delay, the
    loop polls with [max(1, kbd_repeat_delay_ms // 4)], which is positive. *)
Theorem auto_timeout_is_max_1_quarter : forall repeatIntervalMs : Z,
  0 < repeatIntervalMs ->
  resolve_timeout (-1) repeatIntervalMs = Z.max 1 (repeatIntervalMs / 4)
  /\ 0 < resolve_timeout (-1) repeatIntervalMs
  /\ (forall up down init script t,
        select_key_events up down init repeatIntervalMs (-1) script t
        = event_loop (mk_config init repeatIntervalMs
                                (Z.max 1 (repeatIntervalMs / 4)))
                     script (initial_world up down t)).
Proof.
  intros r Hr.
  assert (E : resolve_timeout (-1) r = Z.max 1 (r / 4)).
  { unfold resolve_timeout. simpl.
    destruct (Z.leb_spec (r / 4) 0); lia. }
  split; [exact E|]. split; [lia|].
  intros. unfold select_key_events. now rewrite E.
Qed.

(** *** Calibration *)


Lemma restored_terminal : forall tm : terminal,
  tcsetattr (t_attrs tm) (setcbreak tm) = tm.
Proof. now intros []. Qed.

(** The sampling part of the calibration: all [n] reads are made, the
    terminal mode is put back, and the rest is computed from the samples. *)
Lemma calibrate_sampling : forall (n error : Z) stdin line (tm : terminal),
  calibrate_keyboard_delays n error stdin line tm
  = (delays_of_chars (map stdin (seq 0 (Z.to_nat n))) error line, tm).
Proof.
  intros. unfold calibrate_keyboard_delays, bind at 1, gets.
  unfold bind at 1, try_finally, bind at 1, modify, ret at 1.
  rewrite restored_terminal.
  destruct (map stdin (seq 0 (Z.to_nat n))) as [|c0 [|c1 rest]];
    [reflexivity|reflexivity|].
  cbn [py_index nth_error skipn]. unfold bind at 1, ret at 1.
  unfold bind at 1, ret at 1.
  assert (L : List.length (combine (c1 :: rest) rest) = List.length rest).
  { rewrite length_combine. cbn [List.length]. lia. }
  rewrite length_map, L.
  unfold delays_of_chars, lift, bind, ret.
  repeat match goal with
         | |- context [and_then ?r _] =>
             lazymatch r with
             | context [and_then] => fail
             | _ => destruct r; cbn [and_then]
             end
         end; reflexivity.
Qed.

(** The differences of neighbours, by pairs and by index. *)
Lemma deltas_by_index : forall (r : list (string * float)) (a : string * float),
  map (fun ab => float_sub (snd (snd ab)) (snd (fst ab))) (combine (a :: r) r)
  = map (fun i => float_sub (nth (i + 1) (map snd (a :: r)) (S754_zero false))
                            (nth i (map snd (a :: r)) (S754_zero false)))
        (seq 0 (List.length r)).
Proof.
  induction r as [|b r IH]; intros a; [reflexivity|].
  change (combine (a :: b :: r) (b :: r)) with ((a, b) :: combine (b :: r) r).
  cbn [map List.length seq]. f_equal.
  change (snd b :: map snd r) with (map snd (b :: r)).
  rewrite (IH b), <- seq_shift, map_map. reflexivity.
Qed.



(** C7: with fewer than three samples the calibration raises, whatever is
    read, and returns no delays: [chars[1]] is out of range below two
    samples, and with exactly two the mean divides by zero, unless line 90
    has raised before (the first interval, scaled, is infinite or not a
    number, or the margin is too large for a [float]). *)
Theorem calibrate_fails_below_3_samples :
  forall (sampleCount marginPercent : Z) stdin line (tm : terminal),
  sampleCount < 3 ->
  exists e,
    calibrate_keyboard_delays sampleCount marginPercent stdin line tm
    = (Raise e, tm)
    /\ (sampleCount < 2 -> e = IndexError)
    /\ (sampleCount = 2 ->
        match spec_initialDelayMs [snd (stdin 0%nat); snd (stdin 1%nat)]
                                  marginPercent with
        | Ret _ => e = ZeroDivisionError
        | Raise x => e = x /\ (x = OverflowError \/ x = ValueError)
        end).
Proof.
  intros n m stdin line tm Hn. rewrite calibrate_sampling.
  destruct (Z.ltb_spec n 2) as [H2|H2].
  - exists IndexError. split; [|split; [reflexivity|lia]].
    assert (H : (Z.to_nat n <= 1)%nat) by lia.
    destruct (Z.to_nat n) as [|[|k]]; [reflexivity|reflexivity|lia].
  - assert (n = 2) by lia. subst n. clear Hn H2.
    change (map stdin (seq 0 (Z.to_nat 2))) with [stdin 0%nat; stdin 1%nat].
    unfold delays_of_chars, spec_initialDelayMs, margin_factor.
    cbn [nth combine map List.length py_sum].
    unfold int_truediv. cbn [Z.eqb].
    destruct (is_infinite (float_of_ratio m 100)); cbn [and_then].
    { exists OverflowError. repeat split; auto; lia. }
    destruct (py_round _) as [ki|x] eqn:R; cbn [and_then].
    + exists ZeroDivisionError. repeat split; lia.
    + exists x. split; [reflexivity|]. split; [lia|]. intros _.
      split; [reflexivity|].
      unfold py_round in R.
      destruct (float_mul _ _); try discriminate; injection R as <-; auto.
Qed.

(** *** One key at a time *)

Ltac world_proj H :=
  cbn beta iota delta
      [pressed is_first_keypress current_delay_ms up_hooks down_hooks fired
       term entries default_factory register negb fst snd] in H.

Ltac split_match H :=
  repeat (world_proj H;
          match type of H with
          | context [match ?x with _ => _ end] =>
              lazymatch x with
              | context [match _ with _ => _ end] => fail
              | _ => destruct x eqn:?
              end
          | context [if ?x then _ else _] =>
              lazymatch x with
              | context [match _ with _ => _ end] => fail
              | context [if _ then _ else _] => fail
              | _ => destruct x eqn:?
              end
          end).

Ltac run_ops H :=
  unfold tick_key, on_event, call_down_hook, call_up_hook, invoke,
    read_pressed, read_current_delay_ms, read_is_first_keypress,
    bind, ret, raise, gets, modify, Dict.getitem_default,
    with_pressed, with_is_first_keypress, with_current_delay_ms,
    with_down_hooks, with_fired, with_term in H;
  split_match H;
  world_proj H;
  injection H as <- <-.

Lemma tick_key_frame : forall cfg c w r w',
  tick_key cfg c w = (r, w') ->
  term w' = term w /\ up_hooks w' = up_hooks w.
Proof.
  intros cfg c w r w' H. run_ops H; split; reflexivity.
Qed.

Lemma count_calls_snoc : forall kind k log kind' k' cb,
  count_calls kind k (log ++ [(kind', k', cb)])
  = (count_calls kind k log
     + if hook_kind_eqb kind' kind && String.eqb k' k then 1 else 0)%nat.
Proof.
  intros. unfold count_calls. rewrite filter_app, length_app. cbn.
  now destruct (hook_kind_eqb kind' kind && String.eqb k' k).
Qed.

Lemma eqb_neq_false : forall a b : string, a <> b -> String.eqb a b = false.
Proof. intros a b N. now apply String.eqb_neq. Qed.

Ltac simp_view :=
  unfold is_pressed, is_first, elapsed, with_pressed, with_is_first_keypress,
    with_current_delay_ms, with_down_hooks, with_fired, with_term in *;
  cbn [pressed is_first_keypress current_delay_ms up_hooks down_hooks fired term] in *;
  repeat match goal with
         | H : context [Dict.get (Dict.set _ ?k _) ?k] |- _ =>
             rewrite get_set_same in H
         | H : Some _ = Some _ |- _ => injection H as H
         end;
  subst;
  repeat first
    [ rewrite peek_set_same
    | rewrite peek_set_other by congruence
    | rewrite peek_set_default by assumption
    | rewrite count_calls_snoc
    | rewrite eqb_neq_false by congruence
    | rewrite String.eqb_refl
    | rewrite andb_false_r
    | rewrite andb_true_r
    | rewrite Nat.add_0_r ];
  cbn [hook_kind_eqb andb];
  unfold Dict.peek in *;
  repeat match goal with
         | E : Dict.get ?d ?k = _ |- context [Dict.get ?d ?k] => rewrite E
         | E : Dict.get ?d ?k = _, H : context [Dict.get ?d ?k] |- _ =>
             rewrite E in H
         end.

Ltac by_cases H := run_ops H; repeat split; intros; simp_view; auto.

(** A pass of the loop body for another key leaves a key alone. *)
Lemma tick_key_other : forall cfg c w r w' k,
  tick_key cfg c w = (r, w') ->
  k <> c ->
  is_pressed w' k = is_pressed w k
  /\ is_first w' k = is_first w k
  /\ elapsed w' k = elapsed w k
  /\ forall kind, count_calls kind k (fired w') = count_calls kind k (fired w).
Proof.
  intros cfg c w r w' k H N. by_cases H.
Qed.

(** A key that is not pressed is skipped. *)
Lemma tick_key_unpressed : forall cfg c w r w',
  tick_key cfg c w = (r, w') ->
  is_pressed w c = false ->
  r = Ret tt
  /\ is_pressed w' c = false
  /\ is_first w' c = is_first w c
  /\ elapsed w' c = elapsed w c
  /\ fired w' = fired w.
Proof.
  intros cfg c w r w' H P. by_cases H; congruence.
Qed.

(** A pressed key: the timeout is added to its delay, and the delay is
    compared with the threshold that applies. *)
Lemma tick_key_pressed : forall cfg c w r w',
  tick_key cfg c w = (r, w') ->
  is_pressed w c = true ->
  elapsed w' c = elapsed w c + select_timeout_ms cfg
  /\ count_calls Press c (fired w') = count_calls Press c (fired w)
  /\ (expired cfg (is_first w c) (elapsed w c + select_timeout_ms cfg) = false ->
      r = Ret tt /\ fired w' = fired w
      /\ is_pressed w' c = true /\ is_first w' c = is_first w c)
  /\ (expired cfg (is_first w c) (elapsed w c + select_timeout_ms cfg) = true ->
      (r = Ret tt ->
       is_pressed w' c = false /\ is_first w' c = true
       /\ count_calls Release c (fired w')
          = S (count_calls Release c (fired w)))
      /\ (r <> Ret tt ->
          is_pressed w' c = true /\ is_first w' c = is_first w c)).
Proof.
  intros cfg c w r w' H P. unfold expired.
  by_cases H; try congruence; try lia.
Qed.

(** The loop over [pressed.keys()] does not change the keys of [pressed]. *)
Lemma tick_key_keys : forall cfg c w r w',
  tick_key cfg c w = (r, w') ->
  In c (Dict.keys (pressed w)) ->
  Dict.keys (pressed w') = Dict.keys (pressed w).
Proof.
  intros cfg c w r w' H I.
  run_ops H; cbn [pressed]; rewrite ?keys_set_present; auto.
  all: exfalso; eapply get_None_not_In_keys; eauto.
Qed.

(** An event for another key leaves a key alone. *)
Lemma on_event_other : forall c w r w' k,
  on_event c w = (r, w') ->
  k <> c ->
  is_pressed w' k = is_pressed w k
  /\ is_first w' k = is_first w k
  /\ elapsed w' k = elapsed w k
  /\ forall kind, count_calls kind k (fired w') = count_calls kind k (fired w).
Proof.
  intros c w r w' k H N. by_cases H.
Qed.

(** An event for a key: its delay restarts; a key that was not pressed
    becomes pressed after its press hook, if it has one, was called; a key
    that was pressed has seen a repeat. *)
Lemma on_event_same : forall c w r w',
  on_event c w = (r, w') ->
  elapsed w' c = 0
  /\ count_calls Release c (fired w') = count_calls Release c (fired w)
  /\ (r = Ret tt ->
      is_pressed w' c = true /\ is_first w' c = negb (is_pressed w c))
  /\ (r <> Ret tt ->
      is_pressed w' c = false /\ is_first w' c = is_first w c)
  /\ (is_pressed w c = true -> r = Ret tt /\ fired w' = fired w)
  /\ (is_pressed w c = false ->
      count_calls Press c (fired w')
      = (count_calls Press c (fired w)
         + if Dict.mem (entries (up_hooks w)) c then 1 else 0)%nat).
Proof.
  intros c w r w' H. unfold Dict.mem.
  by_cases H; try congruence; try lia.
  all: match goal with b : bool |- _ => destruct b end;
    simpl in *; try congruence; try lia.
Qed.

Lemma on_event_frame : forall c w r w',
  on_event c w = (r, w') ->
  term w' = term w /\ up_hooks w' = up_hooks w /\ down_hooks w' = down_hooks w.
Proof.
  intros c w r w' H. by_cases H.
Qed.

Lemma NoDup_snoc : forall (l : list string) (k : string),
  NoDup l -> ~ In k l -> NoDup (l ++ [k]).
Proof.
  induction l as [|a l IH]; intros k D N; simpl.
  - constructor; [tauto|constructor].
  - inversion D as [|? ? Na Dl]; subst. constructor.
    + rewrite in_app_iff. simpl. intros [I|[E|[]]]; [tauto|].
      subst. apply N. now left.
    + apply IH; [exact Dl|]. intros I. apply N. now right.
Qed.

Lemma NoDup_keys_set : forall (d : Dict.dict bool) k v,
  NoDup (Dict.keys d) -> NoDup (Dict.keys (Dict.set d k v)).
Proof.
  intros d k v D. destruct (Dict.get d k) eqn:E.
  - rewrite keys_set_present; [exact D|]. eapply get_Some_In_keys; eauto.
  - rewrite keys_set_absent by exact E.
    apply NoDup_snoc; [exact D|]. now apply get_None_not_In_keys.
Qed.

Lemma on_event_wf : forall c w r w',
  on_event c w = (r, w') -> wf w -> wf w'.
Proof.
  intros c w r w' H. unfold wf. rewrite !uniqueb_NoDup. intros D.
  run_ops H; cbn [pressed]; auto using NoDup_keys_set.
Qed.

(** *** The loop over the pressed keys *)

Lemma for_each_cons : forall cfg c ks w,
  for_each (c :: ks) (tick_key cfg) w
  = match tick_key cfg c w with
    | (Ret _, w1) => for_each ks (tick_key cfg) w1
    | (Raise x, w1) => (Raise x, w1)
    end.
Proof. reflexivity. Qed.

Ltac step_for_each H w1 E :=
  rewrite for_each_cons in H;
  match type of H with
  | context [tick_key ?cfg ?c ?w] =>
      destruct (tick_key cfg c w) as [[[]|?] w1] eqn:E
  end.

Lemma for_each_tick_frame : forall cfg ks w r w',
  for_each ks (tick_key cfg) w = (r, w') ->
  term w' = term w /\ up_hooks w' = up_hooks w.
Proof.
  intros cfg ks. induction ks as [|c ks IH]; intros w r w' H.
  - injection H as <- <-. auto.
  - step_for_each H w1 E; apply tick_key_frame in E as [E1 E2].
    + apply IH in H as [-> ->]. auto.
    + injection H as <- <-. auto.
Qed.

Lemma for_each_tick_keys : forall cfg ks w r w',
  for_each ks (tick_key cfg) w = (r, w') ->
  incl ks (Dict.keys (pressed w)) ->
  Dict.keys (pressed w') = Dict.keys (pressed w).
Proof.
  intros cfg ks. induction ks as [|c ks IH]; intros w r w' H I.
  - now injection H as <- <-.
  - assert (K : In c (Dict.keys (pressed w))) by (apply I; now left).
    step_for_each H w1 E; apply tick_key_keys in E; auto.
    + rewrite <- E. apply IH in H; [exact H|]. rewrite E.
      intros x Hx. apply I. now right.
    + now injection H as <- <-.
Qed.

(** Keys that are not visited are not changed. *)
Lemma for_each_tick_absent : forall cfg ks w r w' k,
  for_each ks (tick_key cfg) w = (r, w') ->
  ~ In k ks ->
  is_pressed w' k = is_pressed w k
  /\ is_first w' k = is_first w k
  /\ elapsed w' k = elapsed w k
  /\ forall kind, count_calls kind k (fired w') = count_calls kind k (fired w).
Proof.
  intros cfg ks. induction ks as [|c ks IH]; intros w r w' k H N.
  - injection H as <- <-. auto.
  - assert (Nc : k <> c) by (intros ->; apply N; now left).
    assert (Nk : ~ In k ks) by (intros I; apply N; now right).
    step_for_each H w1 E;
      destruct (tick_key_other _ _ _ _ _ _ E Nc) as (P & F & D & C).
    + destruct (IH _ _ _ _ H Nk) as (P' & F' & D' & C').
      repeat split; intros; rewrite ?C', ?C; congruence.
    + injection H as <- <-. auto.
Qed.

(** Keys that are not pressed are not changed, however the loop ends. *)
Lemma for_each_tick_unpressed : forall cfg ks w r w' k,
  for_each ks (tick_key cfg) w = (r, w') ->
  is_pressed w k = false ->
  is_pressed w' k = false
  /\ is_first w' k = is_first w k
  /\ elapsed w' k = elapsed w k
  /\ forall kind, count_calls kind k (fired w') = count_calls kind k (fired w).
Proof.
  intros cfg ks. induction ks as [|c ks IH]; intros w r w' k H U.
  - injection H as <- <-. auto.
  - assert (S1 : forall r1 w1, tick_key cfg c w = (r1, w1) ->
       is_pressed w1 k = false /\ is_first w1 k = is_first w k
       /\ elapsed w1 k = elapsed w k
       /\ forall kind, count_calls kind k (fired w1) = count_calls kind k (fired w)).
    { intros r1 w1 E. destruct (String.eqb_spec k c) as [->|Nc].
      - destruct (tick_key_unpressed _ _ _ _ _ E U) as (_ & P & F & D & L).
        repeat split; auto. intros. now rewrite L.
      - destruct (tick_key_other _ _ _ _ _ _ E Nc) as (P & F & D & C).
        repeat split; auto. congruence. }
    step_for_each H w1 E; destruct (S1 _ _ eq_refl) as (P & F & D & C).
    + destruct (IH _ _ _ _ H P) as (P' & F' & D' & C').
      repeat split; intros; rewrite ?C', ?C; congruence.
    + injection H as <- <-. auto.
Qed.

(** A pressed key is visited once when the loop runs to its end. *)
Lemma for_each_tick_pressed : forall cfg ks w w' k,
  for_each ks (tick_key cfg) w = (Ret tt, w') ->
  NoDup ks -> In k ks ->
  is_pressed w k = true ->
  elapsed w' k = elapsed w k + select_timeout_ms cfg
  /\ count_calls Press k (fired w') = count_calls Press k (fired w)
  /\ (expired cfg (is_first w k) (elapsed w k + select_timeout_ms cfg) = false ->
      is_pressed w' k = true /\ is_first w' k = is_first w k
      /\ count_calls Release k (fired w') = count_calls Release k (fired w))
  /\ (expired cfg (is_first w k) (elapsed w k + select_timeout_ms cfg) = true ->
      is_pressed w' k = false /\ is_first w' k = true
      /\ count_calls Release k (fired w')
         = S (count_calls Release k (fired w))).
Proof.
  intros cfg ks. induction ks as [|c ks IH]; intros w w' k H D I P.
  - destruct I.
  - inversion D as [|? ? Nc Dks]; subst.
    step_for_each H w1 E; [|discriminate].
    destruct (String.eqb_spec k c) as [->|Nk].
    + destruct (for_each_tick_absent _ _ _ _ _ _ H Nc) as (P' & F' & D' & C').
      destruct (tick_key_pressed _ _ _ _ _ E P) as (De & Cp & Hf & Ht).
      rewrite P', F', D', !C'. split; [exact De|]. split; [exact Cp|]. split.
      * intros Hx. destruct (Hf Hx) as (_ & L & Pp & Ff). rewrite L. auto.
      * intros Hx. destruct (Ht Hx) as [Hr _]. now apply Hr.
    + destruct I as [->|I]; [congruence|].
      destruct (tick_key_other _ _ _ _ _ _ E Nk) as (P1 & F1 & D1 & C1).
      rewrite <- P1 in P.
      destruct (IH _ _ _ H Dks I P) as (De & Cp & Hf & Ht).
      rewrite F1, D1, !C1 in *. auto.
Qed.

(** *** One pass of the event loop *)

Lemma on_tick_eq : forall cfg w,
  on_tick cfg w = for_each (Dict.keys (pressed w)) (tick_key cfg) w.
Proof. reflexivity. Qed.

Lemma pressed_in_keys : forall w k,
  is_pressed w k = true -> In k (Dict.keys (pressed w)).
Proof.
  intros w k. unfold is_pressed, Dict.peek.
  destruct (Dict.get (pressed w) k) eqn:E; [|discriminate].
  intros _. eapply get_Some_In_keys; eauto.
Qed.

Lemma with_term_id : forall w : world, with_term (fun _ => term w) w = w.
Proof. now intros []. Qed.

(** The passes in which no call on the terminal outside the [try] suite
    raises: the [finally] suite restores the mode and clears
    [O_NONBLOCK]. *)
Lemma iteration_eq : forall cfg e w,
  session_calls_succeed e = true ->
  iteration cfg e w
  = let (r, w2) := guarded cfg e (with_term set_nonblocking w) in
    (r, restored w w2).
Proof.
  intros cfg e w S. unfold session_calls_succeed in S.
  unfold iteration, release.
  destruct (io_tcgetattr_raises e); [discriminate|].
  destruct (io_set_nonblocking_raises e); [discriminate|].
  destruct (io_tcsetattr_raises e); [discriminate|].
  destruct (io_set_blocking_raises e); [discriminate|].
  unfold bind, gets, modify, try_finally. cbn.
  destruct (guarded cfg e (with_term set_nonblocking w)); reflexivity.
Qed.

Lemma reads_session : forall e c,
  reads e = Some c ->
  session_calls_succeed e = true
  /\ io_setcbreak_raises e = false
  /\ io_select e = Some true
  /\ io_read e = Some c.
Proof.
  intros e c. unfold reads.
  destruct (session_calls_succeed e); [|discriminate].
  destruct (io_setcbreak_raises e); [discriminate|].
  destruct (io_select e) as [[]|]; try discriminate. auto.
Qed.

Lemma is_timeout_session : forall e,
  is_timeout e = true ->
  session_calls_succeed e = true
  /\ io_setcbreak_raises e = false
  /\ io_select e = Some false.
Proof.
  intros e. unfold is_timeout.
  destruct (session_calls_succeed e); [|discriminate].
  destruct (io_setcbreak_raises e); [discriminate|].
  destruct (io_select e) as [[]|]; try discriminate. auto.
Qed.

(** A pass that reads something else than the sentinel handles an event. *)
Lemma iteration_event : forall cfg e w c,
  reads e = Some c -> c <> EOT ->
  iteration cfg e w
  = let (r, w2) := on_event c (acquired w) in
    (continue_after r, restored w w2).
Proof.
  intros cfg e w c R N.
  destruct (reads_session _ _ R) as (S & B & Sel & Rd).
  rewrite (iteration_eq _ _ _ S).
  unfold guarded, bind at 1. rewrite B, Sel, Rd.
  unfold modify at 1, bind at 1, ret at 1, bind at 1, ret at 1.
  apply String.eqb_neq in N. rewrite N.
  unfold bind, acquired.
  change (with_term setcbreak (with_term set_nonblocking w))
    with (with_term (fun t => setcbreak (set_nonblocking t)) w).
  match goal with
  | |- context [on_event c ?a] => destruct (on_event c a) as [[[]|x] w2]
  end; reflexivity.
Qed.

(** A pass that reads the sentinel leaves the loop. *)
Lemma iteration_sentinel : forall cfg e w,
  reads e = Some EOT ->
  iteration cfg e w = (Ret Break, restored w (acquired w)).
Proof.
  intros cfg e w R.
  destruct (reads_session _ _ R) as (S & B & Sel & Rd).
  rewrite (iteration_eq _ _ _ S).
  unfold guarded, bind at 1. rewrite B, Sel, Rd.
  reflexivity.
Qed.

(** A pass that times out visits the pressed keys. *)
Lemma iteration_timeout : forall cfg e w,
  is_timeout e = true ->
  iteration cfg e w
  = let (r, w2) := on_tick cfg (acquired w) in
    (continue_after r, restored w w2).
Proof.
  intros cfg e w T.
  destruct (is_timeout_session _ T) as (S & B & Sel).
  rewrite (iteration_eq _ _ _ S).
  unfold guarded, bind at 1. rewrite B, Sel.
  unfold modify at 1, bind at 1, ret at 1. unfold bind at 1, acquired.
  change (with_term setcbreak (with_term set_nonblocking w))
    with (with_term (fun t => setcbreak (set_nonblocking t)) w).
  match goal with
  | |- context [on_tick cfg ?a] => destruct (on_tick cfg a) as [[[]|x] w2]
  end; reflexivity.
Qed.

(** How the [try] suite can go, from the world [w1] it starts in. *)
Lemma guarded_cases : forall cfg e w1 r w2,
  guarded cfg e w1 = (r, w2) ->
  (exists x, r = Raise x /\ (w2 = w1 \/ w2 = with_term setcbreak w1))
  \/ (io_setcbreak_raises e = false /\ io_select e = Some true
      /\ io_read e = Some EOT /\ r = Ret Break /\ w2 = with_term setcbreak w1)
  \/ (exists c r0,
        io_setcbreak_raises e = false /\ io_select e = Some true
        /\ io_read e = Some c /\ c <> EOT
        /\ on_event c (with_term setcbreak w1) = (r0, w2)
        /\ r = continue_after r0)
  \/ (exists r0,
        io_setcbreak_raises e = false /\ io_select e = Some false
        /\ on_tick cfg (with_term setcbreak w1) = (r0, w2)
        /\ r = continue_after r0).
Proof.
  intros cfg e w1 r w2 H. unfold guarded, bind at 1 in H.
  destruct (io_setcbreak_raises e).
  { injection H as <- <-. left. eauto. }
  unfold modify at 1, bind at 1 in H.
  destruct (io_select e) as [[]|].
  - unfold ret at 1, bind at 1 in H.
    destruct (io_read e) as [c|].
    + unfold ret at 1 in H.
      destruct (String.eqb c EOT) eqn:Q.
      * apply String.eqb_eq in Q. subst c.
        injection H as <- <-. right; left. auto.
      * apply String.eqb_neq in Q. unfold bind in H.
        destruct (on_event c (with_term setcbreak w1)) as [[[]|x] w3] eqn:E;
          injection H as <- <-; right; right; left; eexists c, _;
          repeat (split; [first [eassumption|reflexivity]|]); reflexivity.
    + injection H as <- <-. left. eauto.
  - unfold ret at 1, bind in H.
    destruct (on_tick cfg (with_term setcbreak w1)) as [[[]|x] w3] eqn:E;
      injection H as <- <-; right; right; right; eexists;
      repeat (split; [first [eassumption|reflexivity]|]); reflexivity.
  - injection H as <- <-. left. eauto.
Qed.

(** One pass, call by call. *)
Lemma iteration_unfold : forall cfg e w,
  iteration cfg e w
  = if io_tcgetattr_raises e then (Raise TermiosError, w)
    else if io_set_nonblocking_raises e then (Raise OSError, w)
    else
      let (r, w2) := guarded cfg e (with_term set_nonblocking w) in
      if io_tcsetattr_raises e then (Raise TermiosError, w2)
      else if io_set_blocking_raises e
           then (Raise OSError, with_term (tcsetattr (t_attrs (term w))) w2)
           else (r, restored w w2).
Proof.
  intros cfg e w. unfold iteration, release.
  destruct (io_tcgetattr_raises e); [reflexivity|].
  destruct (io_set_nonblocking_raises e); [reflexivity|].
  unfold bind, gets, modify, try_finally, raise. cbn.
  destruct (guarded cfg e (with_term set_nonblocking w)) as [r w2].
  destruct (io_tcsetattr_raises e); [reflexivity|].
  destruct (io_set_blocking_raises e); reflexivity.
Qed.

(** Any other pass raises: from a call on the terminal or from the [try]
    suite before a key is touched, or from the [finally] suite after the
    event or the timeout was handled.  Apart from the terminal, the world
    is the one these left. *)
Lemma iteration_failure : forall cfg e w r w',
  reads e = None -> is_timeout e = false ->
  iteration cfg e w = (r, w') ->
  exists x t w2,
    r = Raise x /\ w' = with_term (fun _ => t) w2
    /\ (w2 = w
        \/ (exists c r0, c <> EOT /\ on_event c (acquired w) = (r0, w2))
        \/ (exists r0, on_tick cfg (acquired w) = (r0, w2))).
Proof.
  intros cfg e w r w' R T H. rewrite iteration_unfold in H.
  unfold reads, is_timeout, session_calls_succeed in R, T.
  destruct (io_tcgetattr_raises e).
  { injection H as <- <-. exists TermiosError, (term w), w.
    rewrite with_term_id. auto. }
  destruct (io_set_nonblocking_raises e).
  { injection H as <- <-. exists OSError, (term w), w.
    rewrite with_term_id. auto. }
  destruct (guarded cfg e (with_term set_nonblocking w)) as [r1 w2] eqn:G.
  assert (K : forall (x : exn) (t : terminal),
             r = Raise x -> w' = with_term (fun _ => t) w2 ->
             exists x t w3,
               r = Raise x /\ w' = with_term (fun _ => t) w3
               /\ (w3 = w
                   \/ (exists c r0, c <> EOT /\ on_event c (acquired w) = (r0, w3))
                   \/ (exists r0, on_tick cfg (acquired w) = (r0, w3)))).
  { intros x t -> ->.
    destruct (guarded_cases _ _ _ _ _ G)
      as [(y & _ & [->| ->])
         |[(_ & _ & _ & _ & ->)
          |[(c & r0 & _ & _ & _ & N & E & _)|(r0 & _ & _ & E & _)]]].
    - exists x, t, w. split; [reflexivity|]. split; [reflexivity|]. now left.
    - exists x, t, w. split; [reflexivity|]. split; [reflexivity|]. now left.
    - exists x, t, w. split; [reflexivity|]. split; [reflexivity|]. now left.
    - exists x, t, w2. split; [reflexivity|]. split; [reflexivity|].
      right; left. exists c, r0. auto.
    - exists x, t, w2. split; [reflexivity|]. split; [reflexivity|].
      right; right. exists r0. auto. }
  destruct (io_tcsetattr_raises e).
  { injection H as <- <-. apply (K TermiosError (term w2)); [reflexivity|].
    now rewrite with_term_id. }
  destruct (io_set_blocking_raises e).
  { injection H as <- <-.
    apply (K OSError (tcsetattr (t_attrs (term w)) (term w2))); reflexivity. }
  injection H as <- <-. cbn [negb andb] in R, T.
  destruct (guarded_cases _ _ _ _ _ G)
    as [(y & -> & W)
       |[(B & Sel & Rd & _)
        |[(c & r0 & B & Sel & Rd & _)|(r0 & B & Sel & _)]]].
  - apply (K y (set_blocking (tcsetattr (t_attrs (term w)) (term w2))));
      reflexivity.
  - rewrite B, Sel, Rd in R. discriminate.
  - rewrite B, Sel, Rd in R. discriminate.
  - rewrite B, Sel in T. discriminate.
Qed.

(** The kinds of passes. *)
Lemma pass_kinds : forall e,
  (exists c, reads e = Some c)
  \/ (reads e = None /\ is_timeout e = true)
  \/ (reads e = None /\ is_timeout e = false).
Proof.
  intros e. unfold reads, is_timeout.
  destruct (session_calls_succeed e); [|auto].
  destruct (io_setcbreak_raises e); [auto|].
  destruct (io_select e) as [[]|]; auto.
  destruct (io_read e); eauto.
Qed.

(** How a pass can go. *)
Lemma iteration_cases : forall cfg e w r w',
  iteration cfg e w = (r, w') ->
  (exists c r0 w2,
      reads e = Some c /\ c <> EOT /\ on_event c (acquired w) = (r0, w2)
      /\ r = continue_after r0 /\ w' = restored w w2)
  \/ (reads e = Some EOT /\ r = Ret Break /\ w' = restored w (acquired w))
  \/ (exists r0 w2,
      is_timeout e = true /\ reads e = None
      /\ on_tick cfg (acquired w) = (r0, w2)
      /\ r = continue_after r0 /\ w' = restored w w2)
  \/ (exists x t w2,
      reads e = None /\ is_timeout e = false
      /\ r = Raise x /\ w' = with_term (fun _ => t) w2
      /\ (w2 = w
          \/ (exists c r0, c <> EOT /\ on_event c (acquired w) = (r0, w2))
          \/ (exists r0, on_tick cfg (acquired w) = (r0, w2)))).
Proof.
  intros cfg e w r w' H.
  destruct (pass_kinds e) as [[c R]|[[R T]|[R T]]].
  - destruct (String.eqb_spec c EOT) as [->|N].
    + rewrite (iteration_sentinel _ _ _ R) in H. injection H as <- <-.
      right; left. auto.
    + rewrite (iteration_event _ _ _ _ R N) in H.
      destruct (on_event c (acquired w)) as [r0 w2] eqn:E.
      injection H as <- <-. left. exists c, r0, w2. auto.
  - rewrite (iteration_timeout _ _ _ T) in H.
    destruct (on_tick cfg (acquired w)) as [r0 w2] eqn:E.
    injection H as <- <-. right; right; left. exists r0, w2. auto.
  - destruct (iteration_failure cfg e w r w' R T H) as (x & t & w2 & -> & -> & W).
    right; right; right. exists x, t, w2. auto 10.
Qed.

(** *** The terminal *)

Lemma land_lor_lnot : forall f m : Z,
  Z.land (Z.lor f m) (Z.lnot m) = Z.land f (Z.lnot m).
Proof.
  intros f m. apply Z.bits_inj'. intros n Hn.
  rewrite !Z.land_spec, Z.lor_spec, Z.lnot_spec by exact Hn.
  destruct (Z.testbit f n), (Z.testbit m n); reflexivity.
Qed.

Lemma land_lnot_disjoint : forall f m : Z,
  Z.land f m = 0 -> Z.land f (Z.lnot m) = f.
Proof.
  intros f m H. apply Z.bits_inj'. intros n Hn.
  assert (B : Z.testbit (Z.land f m) n = false) by (rewrite H; apply Z.bits_0).
  rewrite Z.land_spec in B. rewrite Z.land_spec, Z.lnot_spec by exact Hn.
  destruct (Z.testbit f n), (Z.testbit m n); simpl in *; congruence.
Qed.

Lemma on_tick_frame : forall cfg w r w',
  on_tick cfg w = (r, w') -> term w' = term w /\ up_hooks w' = up_hooks w.
Proof.
  intros cfg w r w' H. rewrite on_tick_eq in H.
  now apply for_each_tick_frame in H.
Qed.

(** The [try] suite leaves the flags of the descriptor alone, and the mode
    as [tty.setcbreak] left it. *)
Lemma guarded_term : forall cfg e w1 r w2,
  guarded cfg e w1 = (r, w2) ->
  t_flags (term w2) = t_flags (term w1)
  /\ t_attrs (term w2)
     = if io_setcbreak_raises e then t_attrs (term w1)
       else cbreak (t_attrs (term w1)).
Proof.
  intros cfg e w1 r w2 H.
  assert (G : forall w3, term w3 = term (with_term setcbreak w1) ->
                t_flags (term w3) = t_flags (term w1)
                /\ t_attrs (term w3) = cbreak (t_attrs (term w1))).
  { intros w3 ->. cbn. auto. }
  unfold guarded, bind at 1 in H.
  destruct (io_setcbreak_raises e).
  { injection H as <- <-. split; reflexivity. }
  unfold modify at 1, bind at 1 in H.
  destruct (io_select e) as [[]|].
  - unfold ret at 1, bind at 1 in H. destruct (io_read e) as [c|].
    + unfold ret at 1 in H. destruct (String.eqb c EOT).
      * injection H as <- <-. now apply G.
      * unfold bind in H.
        destruct (on_event c (with_term setcbreak w1)) as [[[]|x] w3] eqn:E;
          injection H as <- <-; apply G;
          now apply on_event_frame in E as (-> & _).
    + injection H as <- <-. now apply G.
  - unfold ret at 1, bind in H.
    destruct (on_tick cfg (with_term setcbreak w1)) as [[[]|x] w3] eqn:E;
      injection H as <- <-; apply G;
      now apply on_tick_frame in E as (-> & _).
  - injection H as <- <-. now apply G.
Qed.

(** What a pass leaves of the terminal when the calls outside the [try]
    suite succeed: the mode it found, and the flags it found with
    [O_NONBLOCK] cleared. *)
Lemma iteration_terminal : forall cfg e w r w',
  iteration cfg e w = (r, w') ->
  session_calls_succeed e = true ->
  term w' = {| t_attrs := t_attrs (term w);
               t_flags := Z.land (t_flags (term w)) (Z.lnot O_NONBLOCK) |}.
Proof.
  intros cfg e w r w' H S. rewrite (iteration_eq _ _ _ S) in H.
  destruct (guarded cfg e (with_term set_nonblocking w)) as [r1 w2] eqn:G.
  injection H as <- <-.
  destruct (guarded_term _ _ _ _ _ G) as (F & _).
  unfold restored, with_term, set_blocking, tcsetattr. cbn.
  cbn in F. now rewrite F, land_lor_lnot.
Qed.

Lemma event_loop_cons : forall cfg e rest w,
  event_loop cfg (e :: rest) w
  = match iteration cfg e w with
    | (Ret Continue, w1) => event_loop cfg rest w1
    | (Ret Break, w1) => (Ret Returned, w1)
    | (Raise x, w1) => (Raise x, w1)
    end.
Proof.
  intros. cbn [event_loop]. unfold bind.
  destruct (iteration cfg e w) as [[[]|x] w1]; reflexivity.
Qed.

(** C4: when the characters read are the sentinel, the function returns at
    once: no later pass runs, no callback is called, and no dictionary of the
    loop and no hook table changes, whatever keys are pressed. *)
Theorem sentinel_returns_without_hooks : forall cfg rest w,
  let (r, w') := event_loop cfg (Input EOT :: rest) w in
  r = Ret Returned
  /\ fired w' = fired w
  /\ pressed w' = pressed w
  /\ is_first_keypress w' = is_first_keypress w
  /\ current_delay_ms w' = current_delay_ms w
  /\ up_hooks w' = up_hooks w
  /\ down_hooks w' = down_hooks w.
Proof.
  intros cfg rest w. rewrite event_loop_cons.
  rewrite (iteration_sentinel cfg (Input EOT) w eq_refl).
  repeat split.
Qed.

(** C5, as the code has it: when the calls on the terminal outside the
    [try] suite (lines 39-40 and 69-70) succeed, then however the passes of
    the loop end (sentinel, failing mode switch, failing wait or read,
    exception of a callback), the terminal mode is the one found at the
    start, and the descriptor's flags are the ones found at the start with
    [O_NONBLOCK] cleared; the terminal is exactly as found when the
    descriptor was blocking at the start. *)
Theorem session_restored_with_blocking_forced : forall cfg script w r w',
  event_loop cfg script w = (r, w') ->
  script <> [] ->
  Forall (fun e => session_calls_succeed e = true) script ->
  t_attrs (term w') = t_attrs (term w)
  /\ t_flags (term w') = Z.land (t_flags (term w)) (Z.lnot O_NONBLOCK)
  /\ (Z.land (t_flags (term w)) O_NONBLOCK = 0 -> term w' = term w).
Proof.
  intros cfg script w r w' H N S.
  assert (G : t_attrs (term w') = t_attrs (term w)
              /\ t_flags (term w')
                 = Z.land (t_flags (term w)) (Z.lnot O_NONBLOCK)).
  { revert w H N S.
    induction script as [|e rest IH]; intros w H N S; [congruence|].
    inversion S as [|? ? Se Ss]; subst.
    rewrite event_loop_cons in H.
    destruct (iteration cfg e w) as [r1 w1] eqn:E.
    apply iteration_terminal in E; [|exact Se].
    destruct r1 as [[]|x]; try (injection H as <- <-; rewrite E; auto).
    destruct rest as [|e' rest'].
    - injection H as <- <-. rewrite E. auto.
    - apply IH in H; [|discriminate|exact Ss]. destruct H as [A F].
      rewrite A, F, E. cbn. split; [reflexivity|].
      now rewrite <- Z.land_assoc, Z.land_diag. }
  destruct G as [A F]. repeat split; auto.
  intros B. apply land_lnot_disjoint in B. rewrite B in F.
  destruct (term w'), (term w). cbn in *. congruence.
Qed.

(** *** Released keys are on their first keypress *)

Lemma tick_key_released_first : forall cfg c w r w',
  tick_key cfg c w = (r, w') ->
  released_keys_first w -> released_keys_first w'.
Proof.
  intros cfg c w r w' H I k U.
  destruct (String.eqb_spec k c) as [->|N].
  - destruct (is_pressed w c) eqn:P.
    + destruct (tick_key_pressed _ _ _ _ _ H P) as (_ & _ & Hf & Ht).
      destruct (expired cfg (is_first w c) (elapsed w c + select_timeout_ms cfg)).
      * destruct r as [[]|x].
        -- now apply Ht.
        -- destruct Ht as [_ Ht]; [reflexivity|].
           destruct Ht as [P' _]; congruence.
      * destruct Hf as (_ & _ & P' & _); congruence.
    + destruct (tick_key_unpressed _ _ _ _ _ H P) as (_ & _ & F & _).
      rewrite F. now apply I.
  - destruct (tick_key_other _ _ _ _ _ _ H N) as (P & F & _).
    rewrite F. apply I. congruence.
Qed.

Lemma for_each_tick_released_first : forall cfg ks w r w',
  for_each ks (tick_key cfg) w = (r, w') ->
  released_keys_first w -> released_keys_first w'.
Proof.
  intros cfg ks. induction ks as [|c ks IH]; intros w r w' H I.
  - now injection H as <- <-.
  - step_for_each H w1 E; apply tick_key_released_first in E; auto.
    + eapply IH; eauto.
    + now injection H as <- <-.
Qed.

Lemma on_event_released_first : forall c w r w',
  on_event c w = (r, w') ->
  released_keys_first w -> released_keys_first w'.
Proof.
  intros c w r w' H I k U.
  destruct (String.eqb_spec k c) as [->|N].
  - destruct (on_event_same _ _ _ _ H) as (_ & _ & Hr & Hx & _).
    destruct r as [[]|x].
    + destruct Hr as [P _]; congruence.
    + destruct Hx as [P F]; [discriminate|].
      rewrite F. apply I.
      destruct (is_pressed w c) eqn:Pw; [|reflexivity].
      destruct (on_event_same _ _ _ _ H) as (_ & _ & _ & _ & Hp & _).
      destruct (Hp Pw); discriminate.
  - destruct (on_event_other _ _ _ _ _ H N) as (P & F & _).
    rewrite F. apply I. congruence.
Qed.

Lemma iteration_released_first : forall cfg e w r w',
  iteration cfg e w = (r, w') ->
  released_keys_first w -> released_keys_first w'.
Proof.
  intros cfg e w r w' H I.
  destruct (iteration_cases _ _ _ _ _ H)
    as [(c & r0 & w2 & _ & _ & E & _ & ->)
       |[(_ & _ & ->)
        |[(r0 & w2 & _ & _ & E & _ & ->)
         |(x & t & w2 & _ & _ & _ & -> & W)]]].
  - exact (on_event_released_first _ _ _ _ E I).
  - exact I.
  - rewrite on_tick_eq in E.
    exact (for_each_tick_released_first _ _ _ _ _ E I).
  - destruct W as [->|[(c & r0 & _ & E)|(r0 & E)]].
    + exact I.
    + exact (on_event_released_first _ _ _ _ E I).
    + rewrite on_tick_eq in E.
      exact (for_each_tick_released_first _ _ _ _ _ E I).
Qed.

Lemma event_loop_released_first : forall cfg script w r w',
  event_loop cfg script w = (r, w') ->
  released_keys_first w -> released_keys_first w'.
Proof.
  intros cfg script. induction script as [|e rest IH]; intros w r w' H I.
  - now injection H as <- <-.
  - rewrite event_loop_cons in H.
    destruct (iteration cfg e w) as [r1 w1] eqn:E.
    apply iteration_released_first in E; [|exact I].
    destruct r1 as [[]|x]; try (now injection H as <- <-).
    eapply IH; eauto.
Qed.

(** C10: in every state the loop reaches from its start, over any input and
    however it ends, a key that is not pressed has [is_first_keypress] true. *)
Theorem released_key_is_on_first_keypress :
  forall up down init repeat timeout script t r w',
  select_key_events up down init repeat timeout script t = (r, w') ->
  forall k, is_pressed w' k = false -> is_first w' k = true.
Proof.
  intros up down init rep tmo script t r w' H.
  unfold select_key_events in H.
  eapply event_loop_released_first; [exact H|].
  intros k _. reflexivity.
Qed.

(** *** No key twice in [pressed] *)

Lemma on_tick_wf : forall cfg w r w',
  on_tick cfg w = (r, w') -> wf w -> wf w'.
Proof.
  intros cfg w r w' H. rewrite on_tick_eq in H. unfold wf.
  apply for_each_tick_keys in H; [|apply incl_refl]. now rewrite H.
Qed.

Lemma iteration_wf : forall cfg e w r w',
  iteration cfg e w = (r, w') -> wf w -> wf w'.
Proof.
  intros cfg e w r w' H I.
  destruct (iteration_cases _ _ _ _ _ H)
    as [(c & r0 & w2 & _ & _ & E & _ & ->)
       |[(_ & _ & ->)
        |[(r0 & w2 & _ & _ & E & _ & ->)
         |(x & t & w2 & _ & _ & _ & -> & W)]]].
  - exact (on_event_wf _ _ _ _ E I).
  - exact I.
  - exact (on_tick_wf _ _ _ _ E I).
  - destruct W as [->|[(c & r0 & _ & E)|(r0 & E)]].
    + exact I.
    + exact (on_event_wf _ _ _ _ E I).
    + exact (on_tick_wf _ _ _ _ E I).
Qed.

Lemma event_loop_wf : forall cfg script w r w',
  event_loop cfg script w = (r, w') -> wf w -> wf w'.
Proof.
  intros cfg script. induction script as [|e rest IH]; intros w r w' H I.
  - now injection H as <- <-.
  - rewrite event_loop_cons in H.
    destruct (iteration cfg e w) as [r1 w1] eqn:E.
    apply iteration_wf in E; [|exact I].
    destruct r1 as [[]|x]; try (now injection H as <- <-).
    eapply IH; eauto.
Qed.

Lemma reads_not_timeout : forall e c,
  reads e = Some c -> is_timeout e = false.
Proof.
  intros e c. unfold reads, is_timeout.
  destruct (session_calls_succeed e); [|discriminate].
  destruct (io_setcbreak_raises e); [discriminate|].
  now destruct (io_select e) as [[]|].
Qed.

(** *** The delay of a key *)

(** C9: a timeout leaves every key that is not pressed as it is (pressed
    flag, first-keypress flag and delay), however the pass ends, and adds the
    timeout to the delay of each pressed key when the pass runs to its end;
    an event that is not the sentinel sets the delay of its key to [0] and
    changes no other delay. *)
Theorem delay_accumulates_only_while_pressed : forall cfg e w r w',
  iteration cfg e w = (r, w') ->
  (is_timeout e = true ->
   (forall k, is_pressed w k = false ->
      is_pressed w' k = false
      /\ is_first w' k = is_first w k
      /\ elapsed w' k = elapsed w k)
   /\ (wf w -> r = Ret Continue ->
       forall k, is_pressed w k = true ->
         elapsed w' k = elapsed w k + select_timeout_ms cfg))
  /\ (forall c, reads e = Some c -> c <> EOT ->
      elapsed w' c = 0
      /\ forall k, k <> c -> elapsed w' k = elapsed w k).
Proof.
  intros cfg e w r w' H.
  destruct (iteration_cases _ _ _ _ _ H)
    as [(c & r0 & w2 & R & N & E & -> & ->)
       |[(R & -> & ->)
        |[(r0 & w2 & T & R & E & -> & ->)
         |(x & t & w2 & R & T & -> & -> & W)]]].
  - split.
    + intros T. rewrite (reads_not_timeout _ _ R) in T. discriminate.
    + intros c' R' _. assert (c' = c) by congruence. subst c'. split.
      * now destruct (on_event_same _ _ _ _ E) as (Z0 & _).
      * intros k Nk.
        now destruct (on_event_other _ _ _ _ _ E Nk) as (_ & _ & D & _).
  - split.
    + intros T. rewrite (reads_not_timeout _ _ R) in T. discriminate.
    + intros c R' Nc. congruence.
  - split; [intros _|intros c R'; congruence].
    rewrite on_tick_eq in E. split.
    + intros k U.
      destruct (for_each_tick_unpressed _ _ _ _ _ _ E U) as (P & F & D & _).
      auto.
    + intros Wf Hr k P.
      assert (r0 = Ret tt) by (destruct r0 as [[]|]; [reflexivity|discriminate]).
      subst r0.
      apply (for_each_tick_pressed _ _ _ _ _ E).
      * now apply uniqueb_NoDup.
      * now apply pressed_in_keys.
      * exact P.
  - split; [intros T'; congruence|intros c R'; congruence].
Qed.

(** *** Keys without callbacks *)

Lemma output_snoc_noop : forall log kind k,
  output (log ++ [(kind, k, noop)]) = output log.
Proof.
  intros. unfold output. rewrite flat_map_app. cbn. now rewrite app_nil_r.
Qed.


(** *** One key through a pass *)

Lemma continue_after_Continue : forall r0,
  continue_after r0 = Ret Continue -> r0 = Ret tt.
Proof. intros [[]|x]; [reflexivity|discriminate]. Qed.

(** A pass without an event for [X] that runs to its end. *)
Lemma iteration_quiet : forall cfg e w w' X,
  iteration cfg e w = (Ret Continue, w') ->
  reads e <> Some X ->
  wf w ->
  wf w'
  /\ count_calls Press X (fired w') = count_calls Press X (fired w)
  /\ (is_pressed w X = false ->
      is_pressed w' X = false
      /\ count_calls Release X (fired w') = count_calls Release X (fired w))
  /\ (is_pressed w X = true ->
      if is_timeout e then
        elapsed w' X = elapsed w X + select_timeout_ms cfg
        /\ if expired cfg (is_first w X) (elapsed w X + select_timeout_ms cfg)
           then is_pressed w' X = false
                /\ count_calls Release X (fired w')
                   = S (count_calls Release X (fired w))
           else is_pressed w' X = true /\ is_first w' X = is_first w X
                /\ count_calls Release X (fired w')
                   = count_calls Release X (fired w)
      else
        elapsed w' X = elapsed w X
        /\ is_pressed w' X = true /\ is_first w' X = is_first w X
        /\ count_calls Release X (fired w')
           = count_calls Release X (fired w)).
Proof.
  intros cfg e w w' X H Q Wf.
  split; [exact (iteration_wf _ _ _ _ _ H Wf)|].
  destruct (iteration_cases _ _ _ _ _ H)
    as [(c & r0 & w2 & R & N & E & Hr & ->)
       |[(R & Hr & ->)
        |[(r0 & w2 & T & R & E & Hr & ->)
         |(x & t & w2 & R & T & Hr & -> & W)]]]; try discriminate.
  - assert (Nx : X <> c) by congruence.
    destruct (on_event_other _ _ _ _ _ E Nx) as (P & F & D & C).
    rewrite (reads_not_timeout _ _ R).
    change (is_pressed (restored w w2) X) with (is_pressed w2 X).
    change (is_first (restored w w2) X) with (is_first w2 X).
    change (elapsed (restored w w2) X) with (elapsed w2 X).
    change (fired (restored w w2)) with (fired w2).
    change (is_pressed (acquired w) X) with (is_pressed w X) in P.
    change (is_first (acquired w) X) with (is_first w X) in F.
    change (elapsed (acquired w) X) with (elapsed w X) in D.
    change (fired (acquired w)) with (fired w) in C.
    rewrite P, F, D, !C. repeat split; auto.
  - symmetry in Hr. apply continue_after_Continue in Hr. subst r0. rewrite T.
    rewrite on_tick_eq in E.
    change (is_pressed (restored w w2) X) with (is_pressed w2 X).
    change (is_first (restored w w2) X) with (is_first w2 X).
    change (elapsed (restored w w2) X) with (elapsed w2 X).
    change (fired (restored w w2)) with (fired w2).
    destruct (is_pressed w X) eqn:P.
    + assert (I : In X (Dict.keys (pressed w))) by now apply pressed_in_keys.
      assert (Nd : NoDup (Dict.keys (pressed w))) by now apply uniqueb_NoDup.
      destruct (for_each_tick_pressed _ _ _ _ _ E Nd I P) as (D & Cp & Hf & Ht).
      change (elapsed (acquired w) X) with (elapsed w X) in *.
      change (is_first (acquired w) X) with (is_first w X) in *.
      change (fired (acquired w)) with (fired w) in *.
      split; [exact Cp|]. split; [discriminate|]. intros _.
      split; [exact D|].
      destruct (expired cfg (is_first w X) (elapsed w X + select_timeout_ms cfg)).
      * destruct Ht as (A & B & C); auto.
      * destruct Hf as (A & B & C); auto.
    + destruct (for_each_tick_unpressed _ _ _ _ _ _ E P) as (P' & F & D & C).
      change (fired (acquired w)) with (fired w) in C.
      rewrite !C. split; [reflexivity|]. split; [auto|discriminate].
Qed.

(** A pass with an event for [X] that runs to its end. *)
Lemma iteration_press : forall cfg w w' X,
  iteration cfg (Input X) w = (Ret Continue, w') ->
  X <> EOT ->
  wf w ->
  wf w'
  /\ is_pressed w' X = true
  /\ is_first w' X = negb (is_pressed w X)
  /\ elapsed w' X = 0
  /\ count_calls Release X (fired w') = count_calls Release X (fired w)
  /\ count_calls Press X (fired w')
     = (count_calls Press X (fired w)
        + if is_pressed w X then 0
          else if Dict.mem (entries (up_hooks w)) X then 1 else 0)%nat.
Proof.
  intros cfg w w' X H N Wf.
  split; [exact (iteration_wf _ _ _ _ _ H Wf)|].
  rewrite (iteration_event cfg (Input X) w X eq_refl N) in H.
  destruct (on_event X (acquired w)) as [r0 w2] eqn:E.
  injection H as Hr <-. apply continue_after_Continue in Hr. subst r0.
  destruct (on_event_same _ _ _ _ E) as (D & Cr & Hp & _ & Hy & Hn).
  destruct (Hp eq_refl) as [P F].
  change (is_pressed (restored w w2) X) with (is_pressed w2 X).
  change (is_first (restored w w2) X) with (is_first w2 X).
  change (elapsed (restored w w2) X) with (elapsed w2 X).
  change (fired (restored w w2)) with (fired w2).
  change (is_pressed (acquired w) X) with (is_pressed w X) in *.
  change (fired (acquired w)) with (fired w) in *.
  change (up_hooks (acquired w)) with (up_hooks w) in *.
  repeat split; auto.
  destruct (is_pressed w X).
  - destruct (Hy eq_refl) as [_ L]. rewrite L. lia.
  - now apply Hn.
Qed.

(** *** Runs of the loop *)

Lemma ticked_ms_cons : forall cfg e s,
  ticked_ms cfg (e :: s)
  = (if is_timeout e then select_timeout_ms cfg else 0) + ticked_ms cfg s.
Proof.
  intros. unfold ticked_ms. cbn [filter].
  destruct (is_timeout e); cbn [List.length]; lia.
Qed.

Lemma event_loop_running_cons : forall cfg e rest w w',
  event_loop cfg (e :: rest) w = (Ret Running, w') ->
  exists w1,
    iteration cfg e w = (Ret Continue, w1)
    /\ event_loop cfg rest w1 = (Ret Running, w').
Proof.
  intros cfg e rest w w' H. rewrite event_loop_cons in H.
  destruct (iteration cfg e w) as [[[]|x] w1]; try discriminate.
  exists w1. auto.
Qed.

Lemma event_loop_running_app : forall cfg s1 s2 w w',
  event_loop cfg (s1 ++ s2) w = (Ret Running, w') ->
  exists w1,
    event_loop cfg s1 w = (Ret Running, w1)
    /\ event_loop cfg s2 w1 = (Ret Running, w').
Proof.
  intros cfg s1. induction s1 as [|e s1 IH]; intros s2 w w' H.
  - exists w. auto.
  - cbn [app] in H. apply event_loop_running_cons in H as (w1 & E & H).
    apply IH in H as (w2 & H1 & H2). exists w2. split; [|exact H2].
    rewrite event_loop_cons, E. exact H1.
Qed.

(** Without events for it, a key that is not pressed stays so and its
    release hook is not called. *)
Lemma quiet_run_unpressed : forall cfg X s w w',
  Forall (fun e => reads e <> Some X) s ->
  event_loop cfg s w = (Ret Running, w') ->
  wf w ->
  is_pressed w X = false ->
  is_pressed w' X = false
  /\ count_calls Release X (fired w') = count_calls Release X (fired w).
Proof.
  intros cfg X s. induction s as [|e s IH]; intros w w' Q H Wf U.
  - injection H as <-. auto.
  - inversion Q as [|? ? Qe Qs]; subst.
    apply event_loop_running_cons in H as (w1 & E & H).
    destruct (iteration_quiet _ _ _ _ _ E Qe Wf) as (Wf1 & _ & Hu & _).
    destruct (Hu U) as [U1 C1].
    destruct (IH _ _ Qs H Wf1 U1) as [U' C'].
    split; [exact U'|congruence].
Qed.

(** Without events for it, a key on its first keypress stays pressed while
    the timeouts add up to at most the initial delay, and is released by one
    call of its release hook once they add up to more. *)
Lemma quiet_run_first_hold : forall cfg X s w w',
  Forall (fun e => reads e <> Some X) s ->
  event_loop cfg s w = (Ret Running, w') ->
  wf w ->
  is_pressed w X = true ->
  is_first w X = true ->
  elapsed w X <= kbd_init_delay_ms cfg ->
  (is_pressed w' X = true
   /\ elapsed w X + ticked_ms cfg s <= kbd_init_delay_ms cfg
   /\ count_calls Release X (fired w') = count_calls Release X (fired w))
  \/ (is_pressed w' X = false
      /\ count_calls Release X (fired w')
         = S (count_calls Release X (fired w))).
Proof.
  intros cfg X s. induction s as [|e s IH]; intros w w' Q H Wf P F D.
  - injection H as <-. left. unfold ticked_ms. cbn. repeat split; auto. lia.
  - inversion Q as [|? ? Qe Qs]; subst.
    apply event_loop_running_cons in H as (w1 & E & H).
    destruct (iteration_quiet _ _ _ _ _ E Qe Wf) as (Wf1 & _ & _ & Hp).
    specialize (Hp P). rewrite ticked_ms_cons.
    destruct (is_timeout e).
    + destruct Hp as [D1 Hp]. rewrite F in Hp. cbn [expired] in Hp.
      destruct (Z.gtb_spec (elapsed w X + select_timeout_ms cfg)
                           (kbd_init_delay_ms cfg)) as [G|G].
      * destruct Hp as [U1 C1]. right.
        destruct (quiet_run_unpressed _ _ _ _ _ Qs H Wf1 U1) as [U' C'].
        split; [exact U'|congruence].
      * destruct Hp as (P1 & F1 & C1). rewrite ?F in F1.
        destruct (IH _ _ Qs H Wf1 P1 F1 ltac:(lia)) as [(A & B & C)|(A & B)].
        -- left. repeat split; [exact A|lia|congruence].
        -- right. split; [exact A|congruence].
    + destruct Hp as (D1 & P1 & F1 & C1). rewrite ?F in F1.
      destruct (IH _ _ Qs H Wf1 P1 F1 ltac:(lia)) as [(A & B & C)|(A & B)].
      * left. repeat split; [exact A|lia|congruence].
      * right. split; [exact A|congruence].
Qed.

(** *** Passes that cannot raise *)

Lemma hooks_ok_ext : forall w w',
  up_hooks w' = up_hooks w ->
  (down_hooks w' = down_hooks w
   \/ exists c d, default_factory (down_hooks w) = Some d
                  /\ down_hooks w' = register (down_hooks w) c d) ->
  hooks_ok w -> hooks_ok w'.
Proof.
  intros w w' U D (Hu & Hd & d & Hf & Hr). unfold hooks_ok. rewrite U.
  split; [exact Hu|].
  destruct D as [->|(c & d' & Hf' & ->)].
  - split; [exact Hd|]. exists d. auto.
  - assert (d' = d) by congruence. subst d'. cbn [register entries default_factory].
    split; [|exists d; auto].
    intros k cb G. destruct (String.eqb_spec c k) as [->|N].
    + rewrite get_set_same in G. congruence.
    + rewrite get_set_other in G by exact N. eauto.
Qed.

Ltac hooks_contra Hu Hd :=
  match goal with
  | E : Dict.get _ _ = Some ?c, R : cb_raises ?c = true |- _ =>
      first [rewrite (Hd _ _ E) in R | rewrite (Hu _ _ E) in R]; discriminate
  end.

Ltac hooks_kept Hok :=
  eexists; split; [reflexivity|];
  eapply hooks_ok_ext; [ | | exact Hok];
  [reflexivity
  |first [left; reflexivity
         |right; eexists _, _; split; [eassumption|reflexivity]]].

Lemma tick_key_runs : forall cfg c w,
  hooks_ok w ->
  exists w', tick_key cfg c w = (Ret tt, w') /\ hooks_ok w'.
Proof.
  intros cfg c w Hok. pose proof Hok as (Hu & Hd & d & Hf & Hr).
  destruct (tick_key cfg c w) as [r w'] eqn:H.
  run_ops H; try congruence; try hooks_contra Hu Hd; hooks_kept Hok.
Qed.

Lemma on_event_runs : forall c w,
  hooks_ok w ->
  exists w', on_event c w = (Ret tt, w') /\ hooks_ok w'.
Proof.
  intros c w Hok. pose proof Hok as (Hu & Hd & d & Hf & Hr).
  destruct (on_event c w) as [r w'] eqn:H.
  run_ops H; try congruence; try hooks_contra Hu Hd; hooks_kept Hok.
Qed.

Lemma for_each_tick_runs : forall cfg ks w,
  hooks_ok w ->
  exists w', for_each ks (tick_key cfg) w = (Ret tt, w') /\ hooks_ok w'.
Proof.
  intros cfg ks. induction ks as [|c ks IH]; intros w Hok.
  - exists w. auto.
  - destruct (tick_key_runs cfg c w Hok) as (w1 & E & Hok1).
    rewrite for_each_cons, E. now apply IH.
Qed.

Lemma iteration_runs : forall cfg e w,
  live_pass e -> hooks_ok w ->
  exists w', iteration cfg e w = (Ret Continue, w') /\ hooks_ok w'.
Proof.
  intros cfg e w [T|(c & R & N)] Hok.
  - rewrite (iteration_timeout _ _ _ T), on_tick_eq.
    destruct (for_each_tick_runs cfg (Dict.keys (pressed (acquired w)))
                (acquired w) Hok) as (w2 & E & Hok2).
    rewrite E. exists (restored w w2). auto.
  - rewrite (iteration_event _ _ _ _ R N).
    destruct (on_event_runs c (acquired w) Hok) as (w2 & E & Hok2).
    rewrite E. exists (restored w w2). auto.
Qed.

(** With callbacks that do not raise, a script of timeouts and keys keeps
    the loop running. *)
Lemma event_loop_runs : forall cfg s w,
  Forall live_pass s -> hooks_ok w ->
  exists w', event_loop cfg s w = (Ret Running, w') /\ hooks_ok w'.
Proof.
  intros cfg s. induction s as [|e s IH]; intros w L Hok.
  - exists w. auto.
  - inversion L as [|? ? Le Ls]; subst.
    destruct (iteration_runs cfg e w Le Hok) as (w1 & E & Hok1).
    rewrite event_loop_cons, E. now apply IH.
Qed.

Lemma live_pass_Input : forall X, X <> EOT -> live_pass (Input X).
Proof. intros X N. right. exists X. auto. Qed.

Lemma live_pass_Timeout : live_pass Timeout.
Proof. now left. Qed.

(** *** Holding and releasing a key *)

(** C2: a key that is not pressed gets one event, and then passes follow
    without events for it, whose timeouts add up to more than the initial
    delay.  If the loop is still running after them, the release hook of
    the key was called once since, and the key is not pressed; this stays so
    over any further passes without events for the key.  With callbacks that
    do not raise the loop is still running. *)
Theorem first_hold_release_fires_once : forall cfg X w s1 s2,
  0 < kbd_init_delay_ms cfg ->
  wf w ->
  X <> EOT ->
  is_pressed w X = false ->
  Forall (fun e => reads e <> Some X) (s1 ++ s2) ->
  kbd_init_delay_ms cfg < ticked_ms cfg s1 ->
  (forall w',
     event_loop cfg (Input X :: s1 ++ s2) w = (Ret Running, w') ->
     count_calls Release X (fired w') = S (count_calls Release X (fired w))
     /\ is_pressed w' X = false)
  /\ (hooks_ok w -> Forall live_pass (s1 ++ s2) ->
      exists w', event_loop cfg (Input X :: s1 ++ s2) w = (Ret Running, w')).
Proof.
  intros cfg X w s1 s2 Hinit Wf N U Q Tk. split.
  - intros w' H.
    apply event_loop_running_cons in H as (w1 & E & H).
    destruct (iteration_press _ _ _ _ E N Wf) as (Wf1 & P1 & F1 & D1 & C1 & _).
    rewrite U in F1. cbn in F1.
    apply event_loop_running_app in H as (w2 & H1 & H2).
    apply Forall_app in Q as [Q1 Q2].
    assert (Wf2 : wf w2) by exact (event_loop_wf _ _ _ _ _ H1 Wf1).
    destruct (quiet_run_first_hold _ _ _ _ _ Q1 H1 Wf1 P1 F1 ltac:(lia))
      as [(_ & B & _)|(U2 & C2)]; [lia|].
    destruct (quiet_run_unpressed _ _ _ _ _ Q2 H2 Wf2 U2) as [U' C'].
    split; [congruence|exact U'].
  - intros Hok L.
    destruct (event_loop_runs cfg (Input X :: s1 ++ s2) w) as (w' & E & _);
      [constructor; [now apply live_pass_Input|exact L]|exact Hok|].
    exists w'. exact E.
Qed.

Lemma expired_mono : forall cfg f d d',
  d' <= d -> expired cfg f d = false -> expired cfg f d' = false.
Proof.
  intros cfg f d d' L. unfold expired.
  destruct f; rewrite !Z.gtb_ltb, !Z.ltb_ge; lia.
Qed.

(** Timeouts that do not reach the threshold leave a pressed key pressed. *)
Lemma timeouts_keep_pressed : forall cfg X j rest w w',
  event_loop cfg (repeat Timeout j ++ rest) w = (Ret Running, w') ->
  wf w ->
  is_pressed w X = true ->
  0 <= select_timeout_ms cfg ->
  expired cfg (is_first w X)
          (elapsed w X + Z.of_nat j * select_timeout_ms cfg) = false ->
  exists w1,
    event_loop cfg rest w1 = (Ret Running, w')
    /\ wf w1
    /\ is_pressed w1 X = true
    /\ is_first w1 X = is_first w X
    /\ count_calls Release X (fired w1) = count_calls Release X (fired w)
    /\ count_calls Press X (fired w1) = count_calls Press X (fired w).
Proof.
  intros cfg X j. induction j as [|j IH]; intros rest w w' H Wf P T0 Ex.
  - exists w. cbn in H. auto 10.
  - cbn [repeat app] in H.
    apply event_loop_running_cons in H as (w1 & E & H).
    assert (Q : reads Timeout <> Some X) by discriminate.
    destruct (iteration_quiet _ _ _ _ _ E Q Wf) as (Wf1 & Cp & _ & Hp).
    specialize (Hp P). change (is_timeout Timeout) with true in Hp. cbv beta iota in Hp.
    destruct Hp as [D1 Hp].
    rewrite (expired_mono cfg (is_first w X)
               (elapsed w X + Z.of_nat (S j) * select_timeout_ms cfg)) in Hp
      by (try exact Ex; nia).
    destruct Hp as (P1 & F1 & C1).
    destruct (IH rest w1 w' H Wf1 P1 T0) as (w2 & H2 & Wf2 & P2 & F2 & C2 & Cp2).
    + rewrite F1, D1.
      replace (elapsed w X + select_timeout_ms cfg
               + Z.of_nat j * select_timeout_ms cfg)
        with (elapsed w X + Z.of_nat (S j) * select_timeout_ms cfg) by lia.
      exact Ex.
    + exists w2. repeat split; auto; congruence.
Qed.

(** Repeats that come before the repeat delay is over keep a pressed key
    pressed, and call none of its hooks. *)
Lemma repeats_keep_pressed : forall cfg X j n w w',
  event_loop cfg (cycles X j n) w = (Ret Running, w') ->
  wf w ->
  X <> EOT ->
  is_pressed w X = true ->
  0 <= select_timeout_ms cfg ->
  Z.of_nat j * select_timeout_ms cfg <= kbd_repeat_delay_ms cfg ->
  is_pressed w' X = true
  /\ count_calls Release X (fired w') = count_calls Release X (fired w)
  /\ count_calls Press X (fired w') = count_calls Press X (fired w).
Proof.
  intros cfg X j n. induction n as [|n IH]; intros w w' H Wf N P T0 G.
  - injection H as <-. auto.
  - cbn [cycles] in H.
    apply event_loop_running_cons in H as (w1 & E & H).
    destruct (iteration_press _ _ _ _ E N Wf) as (Wf1 & P1 & F1 & D1 & C1 & Cp1).
    rewrite P in F1, Cp1. cbn [negb] in F1.
    destruct (timeouts_keep_pressed _ _ _ _ _ _ H Wf1 P1 T0)
      as (w2 & H2 & Wf2 & P2 & F2 & C2 & Cp2).
    + rewrite F1, D1. cbn [expired]. rewrite Z.gtb_ltb, Z.ltb_ge. lia.
    + destruct (IH _ _ H2 Wf2 N P2 T0 G) as (P' & C' & Cp').
      repeat split; [exact P'|lia|lia].
Qed.

Lemma live_pass_cycles : forall X j n,
  X <> EOT -> Forall live_pass (cycles X j n).
Proof.
  intros X j n N. induction n as [|n IH]; cbn [cycles]; constructor.
  - now apply live_pass_Input.
  - apply Forall_app. split; [|exact IH].
    apply Forall_forall. intros e I. apply repeat_spec in I. subst.
    exact live_pass_Timeout.
Qed.

(** C3, as the code has it: events for a key that is not pressed and has a
    press hook come with timeouts in between that add up to at most half the
    repeat delay and to at most the initial delay.  If the loop is still
    running after any number of them (ten, for one), the release hook of the
    key was not called, its press hook was called once, and the key is
    pressed.  With callbacks that do not raise the loop is still running. *)
Theorem sustained_repeat_keeps_key_pressed : forall cfg X cb (j n : nat) w,
  wf w ->
  X <> EOT ->
  is_pressed w X = false ->
  Dict.get (entries (up_hooks w)) X = Some cb ->
  0 <= select_timeout_ms cfg ->
  Z.of_nat j * select_timeout_ms cfg <= kbd_repeat_delay_ms cfg / 2 ->
  Z.of_nat j * select_timeout_ms cfg <= kbd_init_delay_ms cfg ->
  (forall w',
     event_loop cfg (cycles X j (S n)) w = (Ret Running, w') ->
     count_calls Release X (fired w') = count_calls Release X (fired w)
     /\ count_calls Press X (fired w') = S (count_calls Press X (fired w))
     /\ is_pressed w' X = true)
  /\ (hooks_ok w ->
      exists w', event_loop cfg (cycles X j (S n)) w = (Ret Running, w')).
Proof.
  intros cfg X cb j n w Wf N U R T0 Gr Gi. split.
  - intros w' H. cbn [cycles] in H.
    apply event_loop_running_cons in H as (w1 & E & H).
    destruct (iteration_press _ _ _ _ E N Wf) as (Wf1 & P1 & F1 & D1 & C1 & Cp1).
    rewrite U in F1, Cp1. unfold Dict.mem in Cp1. rewrite R in Cp1.
    cbn [negb] in F1.
    destruct (timeouts_keep_pressed _ _ _ _ _ _ H Wf1 P1 T0)
      as (w2 & H2 & Wf2 & P2 & F2 & C2 & Cp2).
    + rewrite F1, D1. cbn [expired]. rewrite Z.gtb_ltb, Z.ltb_ge. lia.
    + assert (G : Z.of_nat j * select_timeout_ms cfg <= kbd_repeat_delay_ms cfg).
      { pose proof (Z.mul_div_le (kbd_repeat_delay_ms cfg) 2 ltac:(lia)). nia. }
      destruct (repeats_keep_pressed _ _ _ _ _ _ H2 Wf2 N P2 T0 G)
        as (P' & C' & Cp').
      repeat split; [lia|lia|exact P'].
  - intros Hok.
    destruct (event_loop_runs cfg (cycles X j (S n)) w) as (w' & E & _);
      [now apply live_pass_cycles|exact Hok|].
    exists w'. exact E.
Qed.

(** ** Further properties *)

(** *** Lines 13-19: the descriptor's flags *)

(** [set_nonblocking] sets the bits of [O_NONBLOCK] and [set_blocking]
    clears them; both leave every other bit of the flags and the terminal
    mode alone, and the later call wins. *)
Theorem nonblocking_flag_set_and_cleared : forall t : terminal,
  t_attrs (set_nonblocking t) = t_attrs t
  /\ t_attrs (set_blocking t) = t_attrs t
  /\ Z.land (t_flags (set_nonblocking t)) O_NONBLOCK = O_NONBLOCK
  /\ Z.land (t_flags (set_blocking t)) O_NONBLOCK = 0
  /\ (forall n, 0 <= n -> Z.testbit O_NONBLOCK n = false ->
        Z.testbit (t_flags (set_nonblocking t)) n = Z.testbit (t_flags t) n
        /\ Z.testbit (t_flags (set_blocking t)) n = Z.testbit (t_flags t) n)
  /\ set_blocking (set_nonblocking t) = set_blocking t
  /\ set_nonblocking (set_blocking t) = set_nonblocking t.
Proof.
  intros [a f]. unfold set_nonblocking, set_blocking. cbn.
  split; [reflexivity|]. split; [reflexivity|]. split.
  { apply Z.bits_inj'. intros n Hn. rewrite Z.land_spec, Z.lor_spec.
    destruct (Z.testbit f n), (Z.testbit O_NONBLOCK n); reflexivity. }
  split.
  { apply Z.bits_inj'. intros n Hn.
    rewrite !Z.land_spec, Z.lnot_spec, Z.bits_0 by exact Hn.
    destruct (Z.testbit f n), (Z.testbit O_NONBLOCK n); reflexivity. }
  split.
  { intros n Hn B.
    rewrite Z.lor_spec, Z.land_spec, Z.lnot_spec, B by exact Hn.
    destruct (Z.testbit f n); split; reflexivity. }
  split.
  - now rewrite land_lor_lnot.
  - f_equal. apply Z.bits_inj'. intros n Hn.
    rewrite !Z.lor_spec, Z.land_spec, Z.lnot_spec by exact Hn.
    destruct (Z.testbit f n), (Z.testbit O_NONBLOCK n); reflexivity.
Qed.

(** *** Lines 25-32: the automatic timeout and the docstring's bound *)

(** The docstring asks for a timeout of at most half the repeat delay.  The
    automatic value keeps to it for repeat delays from 2 ms on; below, it is
    1 ms and above half the repeat delay. *)
Theorem auto_timeout_at_most_half_repeat : forall r : Z,
  (2 <= r -> 1 <= resolve_timeout (-1) r <= r / 2)
  /\ (r < 2 -> resolve_timeout (-1) r = 1 /\ r / 2 < resolve_timeout (-1) r).
Proof.
  intros r. unfold resolve_timeout. cbn [Z.eqb Pos.eqb].
  pose proof (Z.div_mod r 4 ltac:(lia)) as D4.
  pose proof (Z.mod_pos_bound r 4 ltac:(lia)) as B4.
  pose proof (Z.div_mod r 2 ltac:(lia)) as D2.
  pose proof (Z.mod_pos_bound r 2 ltac:(lia)) as B2.
  destruct (Z.leb_spec (r / 4) 0); split; intros; lia.
Qed.

(** *** Lines 72-94: more on the calibration *)

Lemma delays_of_chars_timestamps : forall l l' error line,
  map snd l = map snd l' ->
  delays_of_chars l error line = delays_of_chars l' error line.
Proof.
  intros l l' error line H.
  destruct l as [|c0 [|c1 rest]], l' as [|c0' [|c1' rest']];
    try discriminate; try reflexivity.
  cbn [map] in H. injection H as H0 H1 Hr.
  unfold delays_of_chars.
  rewrite (deltas_by_index rest c1), (deltas_by_index rest' c1').
  cbn [map]. rewrite H0, H1, Hr.
  assert (L : List.length rest = List.length rest').
  { rewrite <- (length_map snd rest), Hr. apply length_map. }
  now rewrite L.
Qed.

(** The calibration never looks at the characters it reads: inputs with
    the same timestamps give the same result, whatever was typed (also when
    the reads return the empty string at the end of the input). *)
Theorem calibration_ignores_characters :
  forall (n error : Z) stdin stdin' line (tm : terminal),
  (forall i, snd (stdin' i) = snd (stdin i)) ->
  calibrate_keyboard_delays n error stdin' line tm
  = calibrate_keyboard_delays n error stdin line tm.
Proof.
  intros n error stdin stdin' line tm H. rewrite !calibrate_sampling.
  f_equal. apply delays_of_chars_timestamps.
  rewrite !map_map. apply map_ext. exact H.
Qed.

Lemma delays_of_chars_input : forall chars error,
  (exists e, delays_of_chars chars error None = Raise e)
  /\ (forall line d,
        delays_of_chars chars error (Some line) = Ret d ->
        delays_of_chars chars error None = Raise EOFError)
  /\ (forall line e,
        delays_of_chars chars error (Some line) = Raise e ->
        delays_of_chars chars error None = Raise e).
Proof.
  intros chars error. unfold delays_of_chars.
  destruct chars as [|c0 [|c1 rest]];
    [split; [eauto|split; [discriminate|auto]] ..|].
  repeat match goal with
         | |- context [and_then ?r _] =>
             lazymatch r with
             | context [and_then] => fail
             | py_input _ => fail
             | _ =>
                 destruct r; cbn [and_then];
                 [|split; [eauto|split; [discriminate|auto]]]
             end
         end.
  cbn. split; [eauto|]. split; [reflexivity|discriminate].
Qed.

(** The delays are returned only after the [input()] of line 93: at the
    end of the input the calibration raises, [EOFError] exactly when it
    would have returned delays, and the delays it has computed are lost. *)
Theorem calibration_needs_the_final_input :
  forall (n error : Z) stdin (tm : terminal),
  (exists e, calibrate_keyboard_delays n error stdin None tm = (Raise e, tm))
  /\ (forall line d,
        fst (calibrate_keyboard_delays n error stdin (Some line) tm) = Ret d ->
        calibrate_keyboard_delays n error stdin None tm = (Raise EOFError, tm))
  /\ (forall line e,
        fst (calibrate_keyboard_delays n error stdin (Some line) tm) = Raise e ->
        calibrate_keyboard_delays n error stdin None tm = (Raise e, tm)).
Proof.
  intros n error stdin tm.
  destruct (delays_of_chars_input (map stdin (seq 0 (Z.to_nat n))) error)
    as ((e & E) & R & X).
  split; [|split].
  - exists e. now rewrite calibrate_sampling, E.
  - intros line d H. rewrite calibrate_sampling in H. cbn [fst] in H.
    now rewrite calibrate_sampling, (R _ _ H).
  - intros line x H. rewrite calibrate_sampling in H. cbn [fst] in H.
    now rewrite calibrate_sampling, (X _ _ H).
Qed.

(** The calibration leaves the terminal as it found it, whether it returns
    or raises. *)
Theorem calibration_restores_terminal :
  forall (n error : Z) stdin line (tm : terminal),
  snd (calibrate_keyboard_delays n error stdin line tm) = tm.
Proof.
  intros. now rewrite calibrate_sampling.
Qed.


(** *** The state machine of one key *)

(** What the loop keeps of one key: the three dictionary entries, and how
    often its press hook and its release hook were called. *)
Record key_state : Type := mk_key {
  k_pressed : bool;
  k_first : bool;
  k_delay : Z;
  k_presses : nat;
  k_releases : nat
}.

Definition key_of (w : world) (X : string) : key_state :=
  {| k_pressed := is_pressed w X;
     k_first := is_first w X;
     k_delay := elapsed w X;
     k_presses := count_calls Press X (fired w);
     k_releases := count_calls Release X (fired w) |}.

(** Lines 47-54 for the key: [registered] tells whether it has a press
    hook. *)
Definition key_event (registered : bool) (s : key_state) : key_state :=
  if k_pressed s
  then mk_key true false 0 (k_presses s) (k_releases s)
  else mk_key true true 0
              (k_presses s + if registered then 1 else 0) (k_releases s).

(** Lines 57-67 for the key. *)
Definition key_tick (cfg : config) (s : key_state) : key_state :=
  if k_pressed s then
    let d := k_delay s + select_timeout_ms cfg in
    if expired cfg (k_first s) d
    then mk_key false true d (k_presses s) (S (k_releases s))
    else mk_key true (k_first s) d (k_presses s) (k_releases s)
  else s.

(** One pass of the loop, seen from the key [X]. *)
Definition key_pass (cfg : config) (X : string) (registered : bool) (e : io)
    (s : key_state) : key_state :=
  match reads e with
  | Some c => if String.eqb c X then key_event registered s else s
  | None => if is_timeout e then key_tick cfg s else s
  end.

Definition key_run (cfg : config) (X : string) (registered : bool)
    (script : list io) (s : key_state) : key_state :=
  fold_left (fun s e => key_pass cfg X registered e s) script s.

Lemma on_tick_key : forall cfg w w' X,
  on_tick cfg w = (Ret tt, w') ->
  wf w ->
  key_of w' X = key_tick cfg (key_of w X).
Proof.
  intros cfg w w' X H Wf. rewrite on_tick_eq in H.
  unfold key_of, key_tick. cbn [k_pressed k_first k_delay k_presses k_releases].
  destruct (is_pressed w X) eqn:P.
  - assert (I : In X (Dict.keys (pressed w))) by now apply pressed_in_keys.
    assert (Nd : NoDup (Dict.keys (pressed w))) by now apply uniqueb_NoDup.
    destruct (for_each_tick_pressed _ _ _ _ _ H Nd I P) as (D & Cp & Hf & Ht).
    cbv zeta.
    destruct (expired cfg (is_first w X) (elapsed w X + select_timeout_ms cfg)).
    + destruct (Ht eq_refl) as (A & B & C). now rewrite A, B, C, D, Cp.
    + destruct (Hf eq_refl) as (A & B & C). now rewrite A, B, C, D, Cp.
  - destruct (for_each_tick_unpressed _ _ _ _ _ _ H P) as (A & B & D & C).
    now rewrite A, B, D, !C.
Qed.

Lemma on_event_key : forall c w w' X,
  on_event c w = (Ret tt, w') ->
  key_of w' X
  = if String.eqb c X
    then key_event (Dict.mem (entries (up_hooks w)) X) (key_of w X)
    else key_of w X.
Proof.
  intros c w w' X H. unfold key_of, key_event.
  cbn [k_pressed k_first k_delay k_presses k_releases].
  destruct (String.eqb_spec c X) as [->|N].
  - destruct (on_event_same _ _ _ _ H) as (D & Cr & Hp & _ & Hy & Hn).
    destruct (Hp eq_refl) as [P F]. rewrite P, F, D, Cr.
    destruct (is_pressed w X).
    + destruct (Hy eq_refl) as [_ L]. now rewrite L.
    + now rewrite (Hn eq_refl).
  - assert (Nx : X <> c) by congruence.
    destruct (on_event_other _ _ _ _ _ H Nx) as (P & F & D & C).
    now rewrite P, F, D, !C.
Qed.

(** A pass that runs to its end moves each key by its machine. *)
Lemma iteration_key : forall cfg e w w' X,
  iteration cfg e w = (Ret Continue, w') ->
  wf w ->
  key_of w' X
  = key_pass cfg X (Dict.mem (entries (up_hooks w)) X) e (key_of w X)
  /\ wf w'
  /\ up_hooks w' = up_hooks w.
Proof.
  intros cfg e w w' X H Wf.
  split; [|split; [exact (iteration_wf _ _ _ _ _ H Wf)|]].
  - unfold key_pass.
    destruct (iteration_cases _ _ _ _ _ H)
      as [(c & r0 & w2 & R & N & E & Hr & ->)
         |[(R & Hr & ->)
          |[(r0 & w2 & T & R & E & Hr & ->)
           |(x & t & w2 & R & T & Hr & -> & W)]]]; try discriminate.
    + symmetry in Hr. apply continue_after_Continue in Hr. subst r0.
      rewrite R. exact (on_event_key _ _ _ X E).
    + symmetry in Hr. apply continue_after_Continue in Hr. subst r0.
      rewrite R, T. exact (on_tick_key _ _ _ X E Wf).
  - destruct (iteration_cases _ _ _ _ _ H)
      as [(c & r0 & w2 & R & N & E & Hr & ->)
         |[(R & Hr & ->)
          |[(r0 & w2 & T & R & E & Hr & ->)
           |(x & t & w2 & R & T & Hr & -> & W)]]]; try discriminate.
    + now destruct (on_event_frame _ _ _ _ E) as (_ & U & _).
    + now destruct (on_tick_frame _ _ _ _ E) as (_ & U).
Qed.

(** A run that is still going has moved each key by its machine. *)
Lemma event_loop_key : forall cfg X s w w',
  event_loop cfg s w = (Ret Running, w') ->
  wf w ->
  key_of w' X
  = key_run cfg X (Dict.mem (entries (up_hooks w)) X) s (key_of w X)
  /\ wf w'
  /\ up_hooks w' = up_hooks w.
Proof.
  intros cfg X s. induction s as [|e s IH]; intros w w' H Wf.
  - injection H as <-. auto.
  - apply event_loop_running_cons in H as (w1 & E & H).
    destruct (iteration_key _ _ _ _ X E Wf) as (K1 & Wf1 & U1).
    destruct (IH _ _ H Wf1) as (K & Wf' & U).
    rewrite U1 in K, U. cbn [key_run fold_left]. rewrite <- K1.
    auto.
Qed.

(** While the loop is running, each key goes through its own state
    machine, whatever happens to the other keys: the dictionary entries of
    the key and the number of calls of its hooks after a run are those of
    the machine run over the same passes. *)
Theorem loop_refines_key_machine : forall cfg X script w w',
  wf w ->
  event_loop cfg script w = (Ret Running, w') ->
  key_of w' X
  = key_run cfg X (Dict.mem (entries (up_hooks w)) X) script (key_of w X).
Proof.
  intros cfg X script w w' Wf H.
  now destruct (event_loop_key cfg X script w w' H Wf) as (K & _).
Qed.


Lemma ticked_ms_nonneg : forall cfg s,
  0 <= select_timeout_ms cfg -> 0 <= ticked_ms cfg s.
Proof. intros. unfold ticked_ms. nia. Qed.

Lemma key_pass_quiet : forall cfg X reg e st,
  reads e <> Some X ->
  key_pass cfg X reg e st = if is_timeout e then key_tick cfg st else st.
Proof.
  intros cfg X reg e st Q. unfold key_pass.
  destruct (reads e) as [c|] eqn:R; [|reflexivity].
  rewrite (reads_not_timeout _ _ R).
  destruct (String.eqb_spec c X); [congruence|reflexivity].
Qed.

Lemma key_run_cons : forall cfg X reg e s st,
  key_run cfg X reg (e :: s) st = key_run cfg X reg s (key_pass cfg X reg e st).
Proof. reflexivity. Qed.

(** Without events for it, the machine of a key that is not pressed rests. *)
Lemma key_run_quiet_unpressed : forall cfg X reg s st,
  Forall (fun e => reads e <> Some X) s ->
  k_pressed st = false ->
  key_run cfg X reg s st = st.
Proof.
  intros cfg X reg s. induction s as [|e s IH]; intros st Q U; [reflexivity|].
  inversion Q as [|? ? Qe Qs]; subst.
  rewrite key_run_cons, (key_pass_quiet _ _ _ _ _ Qe).
  assert (T : key_tick cfg st = st) by (unfold key_tick; now rewrite U).
  destruct (is_timeout e); rewrite ?T; now apply IH.
Qed.

(** Without events for it, the machine of a pressed key releases the key at
    the first timeout that takes its delay over the threshold. *)
Lemma key_run_quiet_hold : forall cfg X reg s st,
  Forall (fun e => reads e <> Some X) s ->
  0 <= select_timeout_ms cfg ->
  k_pressed st = true ->
  expired cfg (k_first st) (k_delay st) = false ->
  k_pressed (key_run cfg X reg s st)
  = negb (expired cfg (k_first st) (k_delay st + ticked_ms cfg s))
  /\ k_presses (key_run cfg X reg s st) = k_presses st
  /\ k_releases (key_run cfg X reg s st)
     = (k_releases st
        + if expired cfg (k_first st) (k_delay st + ticked_ms cfg s)
          then 1 else 0)%nat
  /\ (expired cfg (k_first st) (k_delay st + ticked_ms cfg s) = true ->
      k_first (key_run cfg X reg s st) = true)
  /\ (expired cfg (k_first st) (k_delay st + ticked_ms cfg s) = false ->
      k_first (key_run cfg X reg s st) = k_first st
      /\ k_delay (key_run cfg X reg s st) = k_delay st + ticked_ms cfg s).
Proof.
  intros cfg X reg s. induction s as [|e s IH]; intros st Q T0 P Ex.
  - cbn [key_run fold_left]. unfold ticked_ms. cbn [filter List.length].
    rewrite Z.mul_0_l, Z.add_0_r, Ex, P. cbn.
    repeat split; auto; try lia; try discriminate.
  - inversion Q as [|? ? Qe Qs]; subst.
    rewrite key_run_cons, (key_pass_quiet _ _ _ _ _ Qe), ticked_ms_cons.
    pose proof (ticked_ms_nonneg cfg s T0) as Tn.
    destruct (is_timeout e).
    + unfold key_tick. rewrite P. cbv zeta.
      destruct (expired cfg (k_first st) (k_delay st + select_timeout_ms cfg))
        eqn:E1.
      * rewrite key_run_quiet_unpressed by (auto; reflexivity).
        cbn [k_pressed k_first k_delay k_presses k_releases].
        assert (E2 : expired cfg (k_first st)
                       (k_delay st + (select_timeout_ms cfg + ticked_ms cfg s))
                     = true).
        { destruct (expired cfg (k_first st)
                      (k_delay st + (select_timeout_ms cfg + ticked_ms cfg s)))
            eqn:E; [reflexivity|].
          assert (L : k_delay st + select_timeout_ms cfg
                      <= k_delay st + (select_timeout_ms cfg + ticked_ms cfg s))
            by lia.
          rewrite (expired_mono cfg (k_first st) _ _ L E) in E1.
          discriminate. }
        rewrite E2. cbn. repeat split; auto; try lia; try discriminate.
      * match goal with
        | |- context [key_run cfg X reg s ?st1] =>
            destruct (IH st1 Qs T0 eq_refl E1) as (A & B & C & D & F)
        end.
        cbn [k_pressed k_first k_delay k_presses k_releases] in *.
        replace (k_delay st + (select_timeout_ms cfg + ticked_ms cfg s))
          with (k_delay st + select_timeout_ms cfg + ticked_ms cfg s) by lia.
        auto.
    + destruct (IH st Qs T0 P Ex) as (A & B & C & D & F).
      replace (k_delay st + (0 + ticked_ms cfg s))
        with (k_delay st + ticked_ms cfg s) by lia.
      auto.
Qed.

Lemma key_of_pressed : forall w X, k_pressed (key_of w X) = is_pressed w X.
Proof. reflexivity. Qed.

(** A pressed key without further events: it is released exactly when the
    timeouts since have taken its delay over the threshold that applies
    (the initial delay on the first keypress, the repeat delay after a
    repeat); then its release hook was called once and the key is on its
    first keypress again, and else nothing was called and the delay has
    grown by the timeouts. *)
Theorem held_key_released_iff_threshold_passed : forall cfg X s w w',
  wf w ->
  Forall (fun e => reads e <> Some X) s ->
  0 <= select_timeout_ms cfg ->
  is_pressed w X = true ->
  expired cfg (is_first w X) (elapsed w X) = false ->
  event_loop cfg s w = (Ret Running, w') ->
  is_pressed w' X
  = negb (expired cfg (is_first w X) (elapsed w X + ticked_ms cfg s))
  /\ count_calls Press X (fired w') = count_calls Press X (fired w)
  /\ count_calls Release X (fired w')
     = (count_calls Release X (fired w)
        + if expired cfg (is_first w X) (elapsed w X + ticked_ms cfg s)
          then 1 else 0)%nat
  /\ (expired cfg (is_first w X) (elapsed w X + ticked_ms cfg s) = true ->
      is_first w' X = true)
  /\ (expired cfg (is_first w X) (elapsed w X + ticked_ms cfg s) = false ->
      is_first w' X = is_first w X
      /\ elapsed w' X = elapsed w X + ticked_ms cfg s).
Proof.
  intros cfg X s w w' Wf Q T0 P Ex H.
  destruct (event_loop_key cfg X s w w' H Wf) as (K & _).
  pose proof (key_run_quiet_hold cfg X (Dict.mem (entries (up_hooks w)) X)
                s (key_of w X) Q T0 P Ex) as G.
  rewrite <- K in G. exact G.
Qed.

(** A key that is not pressed gets one event and then none: it is pressed
    afterwards exactly as long as the timeouts since add up to at most the
    initial delay, its release hook is called once they add up to more and
    not before, and its press hook, if it has one, was called once. *)
Theorem pressed_until_initial_delay_passed : forall cfg X s w w',
  wf w ->
  X <> EOT ->
  is_pressed w X = false ->
  Forall (fun e => reads e <> Some X) s ->
  0 <= select_timeout_ms cfg ->
  0 <= kbd_init_delay_ms cfg ->
  event_loop cfg (Input X :: s) w = (Ret Running, w') ->
  is_pressed w' X = (ticked_ms cfg s <=? kbd_init_delay_ms cfg)
  /\ count_calls Release X (fired w')
     = (count_calls Release X (fired w)
        + if (ticked_ms cfg s <=? kbd_init_delay_ms cfg)%Z then 0 else 1)%nat
  /\ count_calls Press X (fired w')
     = (count_calls Press X (fired w)
        + if Dict.mem (entries (up_hooks w)) X then 1 else 0)%nat.
Proof.
  intros cfg X s w w' Wf N U Q T0 I0 H.
  destruct (event_loop_key cfg X _ w w' H Wf) as (K & _).
  rewrite key_run_cons in K. unfold key_pass in K.
  change (reads (Input X)) with (Some X) in K. cbv beta iota in K.
  rewrite String.eqb_refl in K. unfold key_event in K.
  rewrite key_of_pressed, U in K.
  match type of K with
  | _ = key_run _ _ ?reg _ ?st1 =>
      assert (Ex : expired cfg (k_first st1) (k_delay st1) = false)
        by (cbn; rewrite Z.gtb_ltb, Z.ltb_ge; lia);
      destruct (key_run_quiet_hold cfg X reg s st1 Q T0 eq_refl Ex)
        as (A & B & C & _)
  end.
  rewrite <- K in A, B, C.
  cbn [key_of k_pressed k_first k_delay k_presses k_releases expired] in A, B, C.
  rewrite Z.add_0_l in A, C.
  assert (G : (ticked_ms cfg s >? kbd_init_delay_ms cfg)
              = negb (ticked_ms cfg s <=? kbd_init_delay_ms cfg)).
  { rewrite Z.gtb_ltb. apply Z.ltb_antisym. }
  rewrite G in A, C. rewrite negb_involutive in A.
  split; [exact A|]. split; [|exact B].
  rewrite C. now destruct (ticked_ms cfg s <=? kbd_init_delay_ms cfg).
Qed.


(** *** Leaving the loop *)

Lemma reads_Some_Input : forall e c, reads e = Some c -> e = Input c.
Proof.
  intros [g n b s r a f] c. unfold reads, session_calls_succeed. cbn.
  destruct g, n, a, f; try discriminate. cbn.
  destruct b; [discriminate|]. destruct s as [[]|]; try discriminate.
  now intros ->.
Qed.

Lemma event_loop_returned_split : forall cfg s w w',
  event_loop cfg s w = (Ret Returned, w') ->
  exists pre post w1,
    s = pre ++ Input EOT :: post
    /\ event_loop cfg pre w = (Ret Running, w1)
    /\ w' = restored w1 (acquired w1).
Proof.
  intros cfg s. induction s as [|e s IH]; intros w w' H; [discriminate|].
  rewrite event_loop_cons in H.
  destruct (iteration cfg e w) as [[[]|x] w1] eqn:E; try discriminate.
  - destruct (IH _ _ H) as (pre & post & w2 & -> & H1 & ->).
    exists (e :: pre), post, w2. repeat split.
    rewrite event_loop_cons, E. exact H1.
  - injection H as <-.
    destruct (iteration_cases _ _ _ _ _ E)
      as [(c & r0 & w2 & _ & _ & _ & Hr & _)
         |[(R & _ & ->)
          |[(r0 & w2 & _ & _ & _ & Hr & _)
           |(x & t & w2 & _ & _ & Hr & _)]]];
      try (destruct r0 as [[]|]; discriminate); try discriminate.
    apply reads_Some_Input in R. subst e.
    exists [], s, w. repeat split.
Qed.

Lemma event_loop_app_sentinel : forall cfg pre post w w1,
  event_loop cfg pre w = (Ret Running, w1) ->
  event_loop cfg (pre ++ Input EOT :: post) w
  = (Ret Returned, restored w1 (acquired w1)).
Proof.
  intros cfg pre. induction pre as [|e pre IH]; intros post w w1 H.
  - injection H as <-. cbn [app]. rewrite event_loop_cons.
    now rewrite (iteration_sentinel cfg (Input EOT) w eq_refl).
  - apply event_loop_running_cons in H as (w2 & E & H).
    cbn [app]. rewrite event_loop_cons, E. now apply IH.
Qed.

(** The function returns exactly when a pass reads the sentinel, and
    nothing else, while the loop is running: characters that only contain
    the sentinel, timeouts and the end of the input do not end it. *)
Theorem loop_returns_exactly_on_sentinel : forall cfg s w,
  fst (event_loop cfg s w) = Ret Returned
  <-> exists pre post w1,
        s = pre ++ Input EOT :: post
        /\ event_loop cfg pre w = (Ret Running, w1).
Proof.
  intros cfg s w. split.
  - intros H. destruct (event_loop cfg s w) as [r w'] eqn:E.
    cbn in H. subst r.
    destruct (event_loop_returned_split _ _ _ _ E) as (pre & post & w1 & A & B & _).
    exists pre, post, w1. auto.
  - intros (pre & post & w1 & -> & H).
    now rewrite (event_loop_app_sentinel cfg pre post w w1 H).
Qed.

(** *** Calls of the hooks *)

Lemma key_run_balanced : forall cfg X (reg : bool) s st,
  k_presses st
  = (if reg then k_releases st + (if k_pressed st then 1 else 0) else 0)%nat ->
  k_presses (key_run cfg X reg s st)
  = (if reg
     then k_releases (key_run cfg X reg s st)
          + (if k_pressed (key_run cfg X reg s st) then 1 else 0)
     else 0)%nat.
Proof.
  intros cfg X reg s. induction s as [|e s IH]; intros st I; [exact I|].
  rewrite key_run_cons. apply IH. clear IH.
  unfold key_pass, key_event, key_tick.
  destruct (reads e) as [c|];
    [destruct (String.eqb c X)|destruct (is_timeout e)]; try exact I;
    destruct (k_pressed st) eqn:P; cbv zeta;
    try destruct (expired cfg (k_first st) (k_delay st + select_timeout_ms cfg));
    destruct reg;
    cbn [k_pressed k_first k_delay k_presses k_releases] in *;
    rewrite ?P; lia.
Qed.

(** As long as no exception ends the loop, the calls of the two hooks of a
    key with a press hook alternate, press first: there is one more press
    call than release calls while the key is pressed, and as many else.  A
    key without a press hook has no press calls. *)
Theorem press_and_release_calls_balance :
  forall up down init repeat timeout script t st w' X,
  select_key_events up down init repeat timeout script t = (Ret st, w') ->
  count_calls Press X (fired w')
  = (if Dict.mem (entries up) X
     then count_calls Release X (fired w') + (if is_pressed w' X then 1 else 0)
     else 0)%nat.
Proof.
  intros up down init rep tmo script t st w' X H.
  unfold select_key_events in H.
  assert (Wf : wf (initial_world up down t)) by reflexivity.
  assert (G : forall s w1,
             event_loop (mk_config init rep (resolve_timeout tmo rep)) s
                        (initial_world up down t) = (Ret Running, w1) ->
             k_presses (key_of w1 X)
             = (if Dict.mem (entries up) X
                then k_releases (key_of w1 X)
                     + (if k_pressed (key_of w1 X) then 1 else 0)
                else 0)%nat).
  { intros s w1 H1.
    destruct (event_loop_key _ X _ _ _ H1 Wf) as (K & _). rewrite K.
    apply key_run_balanced. cbn. now destruct (Dict.mem (entries up) X). }
  destruct st.
  - destruct (event_loop_returned_split _ _ _ _ H) as (pre & post & w1 & _ & H1 & ->).
    exact (G _ _ H1).
  - exact (G _ _ H).
Qed.

Lemma key_run_no_timeouts : forall cfg X reg s st,
  Forall (fun e => is_timeout e = false) s ->
  k_releases (key_run cfg X reg s st) = k_releases st.
Proof.
  intros cfg X reg s. induction s as [|e s IH]; intros st F; [reflexivity|].
  inversion F as [|? ? Fe Fs]; subst.
  rewrite key_run_cons, (IH _ Fs). unfold key_pass, key_event. rewrite Fe.
  destruct (reads e) as [c|]; [|reflexivity].
  destruct (String.eqb c X); [|reflexivity].
  now destruct (k_pressed st).
Qed.

(** Release hooks are called on timeouts only: over passes that all find
    input, however many, no release hook of any key is called. *)
Theorem release_hooks_only_on_timeouts : forall cfg s w w',
  wf w ->
  Forall (fun e => is_timeout e = false) s ->
  event_loop cfg s w = (Ret Running, w') ->
  forall k, count_calls Release k (fired w') = count_calls Release k (fired w).
Proof.
  intros cfg s w w' Wf F H k.
  destruct (event_loop_key cfg k s w w' H Wf) as (K & _).
  change (k_releases (key_of w' k) = k_releases (key_of w k)).
  rewrite K. now apply key_run_no_timeouts.
Qed.

(** *** Calls on the terminal that raise *)

(** When [termios.tcgetattr] or [set_nonblocking] raises before the [try]
    statement, the pass raises and has changed nothing.  When
    [termios.tcsetattr] raises in the [finally] suite, [set_blocking] is not
    reached: whatever the [try] suite did (also when it read the sentinel or
    raised itself) the pass raises [termios.error], [O_NONBLOCK] stays set,
    and the mode stays the one of the [try] suite.  When only
    [set_blocking] raises, the mode is restored and [O_NONBLOCK] stays
    set. *)
Theorem failing_terminal_calls : forall cfg e w r w',
  iteration cfg e w = (r, w') ->
  (io_tcgetattr_raises e = true -> r = Raise TermiosError /\ w' = w)
  /\ (io_tcgetattr_raises e = false -> io_set_nonblocking_raises e = true ->
      r = Raise OSError /\ w' = w)
  /\ (io_tcgetattr_raises e = false -> io_set_nonblocking_raises e = false ->
      io_tcsetattr_raises e = true ->
      r = Raise TermiosError
      /\ t_flags (term w') = Z.lor (t_flags (term w)) O_NONBLOCK
      /\ t_attrs (term w')
         = if io_setcbreak_raises e then t_attrs (term w)
           else cbreak (t_attrs (term w)))
  /\ (io_tcgetattr_raises e = false -> io_set_nonblocking_raises e = false ->
      io_tcsetattr_raises e = false -> io_set_blocking_raises e = true ->
      r = Raise OSError
      /\ t_flags (term w') = Z.lor (t_flags (term w)) O_NONBLOCK
      /\ t_attrs (term w') = t_attrs (term w)).
Proof.
  intros cfg e w r w' H. rewrite iteration_unfold in H.
  destruct (io_tcgetattr_raises e).
  { injection H as <- <-. repeat split; intros; congruence. }
  destruct (io_set_nonblocking_raises e).
  { injection H as <- <-. repeat split; intros; congruence. }
  destruct (guarded cfg e (with_term set_nonblocking w)) as [r1 w2] eqn:G.
  destruct (guarded_term _ _ _ _ _ G) as (F & A).
  cbn [term with_term set_nonblocking t_flags t_attrs] in F, A.
  destruct (io_tcsetattr_raises e).
  { injection H as <- <-.
    split; [discriminate|]. split; [discriminate|].
    split; [auto|discriminate]. }
  destruct (io_set_blocking_raises e).
  { injection H as <- <-.
    split; [discriminate|]. split; [discriminate|].
    split; [discriminate|]. intros _ _ _ _.
    cbn [term with_term tcsetattr t_flags t_attrs]. auto. }
  repeat split; intros; discriminate.
Qed.

(** *** The hook tables *)

(** [r'] is [r] with, at most, keys added that [r] did not have, each with
    the callback of the factory of [r]. *)
Definition hooks_grow (r r' : registry) : Prop :=
  default_factory r' = default_factory r
  /\ (forall k cb, Dict.get (entries r) k = Some cb ->
                  Dict.get (entries r') k = Some cb)
  /\ (forall k cb, Dict.get (entries r') k = Some cb ->
                  Dict.get (entries r) k = Some cb
                  \/ default_factory r = Some cb).

Lemma hooks_grow_refl : forall r, hooks_grow r r.
Proof. intros r. repeat split; auto. Qed.

Lemma hooks_grow_trans : forall r1 r2 r3,
  hooks_grow r1 r2 -> hooks_grow r2 r3 -> hooks_grow r1 r3.
Proof.
  intros r1 r2 r3 (F1 & K1 & N1) (F2 & K2 & N2). repeat split.
  - congruence.
  - auto.
  - intros k cb G. destruct (N2 _ _ G) as [G2|G2]; [auto|].
    right. congruence.
Qed.

Lemma hooks_grow_register : forall r c d,
  Dict.get (entries r) c = None ->
  default_factory r = Some d ->
  hooks_grow r (register r c d).
Proof.
  intros r c d E F. unfold register. repeat split; cbn [entries default_factory].
  - intros k cb G. destruct (String.eqb_spec c k) as [->|N]; [congruence|].
    now rewrite get_set_other.
  - intros k cb G. destruct (String.eqb_spec c k) as [->|N].
    + rewrite get_set_same in G. right. congruence.
    + rewrite get_set_other in G by exact N. now left.
Qed.

Lemma tick_key_hooks_grow : forall cfg c w r w',
  tick_key cfg c w = (r, w') -> hooks_grow (down_hooks w) (down_hooks w').
Proof.
  intros cfg c w r w' H.
  run_ops H; cbn [down_hooks];
    first [apply hooks_grow_refl | apply hooks_grow_register; assumption].
Qed.

Lemma for_each_tick_hooks_grow : forall cfg ks w r w',
  for_each ks (tick_key cfg) w = (r, w') ->
  hooks_grow (down_hooks w) (down_hooks w').
Proof.
  intros cfg ks. induction ks as [|c ks IH]; intros w r w' H.
  - injection H as <- <-. apply hooks_grow_refl.
  - step_for_each H w1 E; apply tick_key_hooks_grow in E.
    + eapply hooks_grow_trans; eauto.
    + now injection H as <- <-.
Qed.

Lemma iteration_hooks : forall cfg e w r w',
  iteration cfg e w = (r, w') ->
  up_hooks w' = up_hooks w /\ hooks_grow (down_hooks w) (down_hooks w').
Proof.
  intros cfg e w r w' H.
  destruct (iteration_cases _ _ _ _ _ H)
    as [(c & r0 & w2 & _ & _ & E & _ & ->)
       |[(_ & _ & ->)
        |[(r0 & w2 & _ & _ & E & _ & ->)
         |(x & t & w2 & _ & _ & _ & -> & W)]]].
  - destruct (on_event_frame _ _ _ _ E) as (_ & U & D). split; [exact U|].
    change (down_hooks (restored w w2)) with (down_hooks w2). rewrite D.
    apply hooks_grow_refl.
  - split; [reflexivity|apply hooks_grow_refl].
  - destruct (on_tick_frame _ _ _ _ E) as (_ & U). split; [exact U|].
    rewrite on_tick_eq in E.
    exact (for_each_tick_hooks_grow _ _ _ _ _ E).
  - destruct W as [->|[(c & r0 & _ & E)|(r0 & E)]].
    + split; [reflexivity|apply hooks_grow_refl].
    + destruct (on_event_frame _ _ _ _ E) as (_ & U & D).
      split; [exact U|].
      change (hooks_grow (down_hooks w) (down_hooks w2)). rewrite D.
      apply hooks_grow_refl.
    + destruct (on_tick_frame _ _ _ _ E) as (_ & U). split; [exact U|].
      rewrite on_tick_eq in E.
      exact (for_each_tick_hooks_grow _ _ _ _ _ E).
Qed.

(** The loop never changes the table of press hooks, however it ends.  To
    the table of release hooks it only adds keys it did not have, with the
    callback of its factory: the entries that were there stay, and a plain
    [dict] is not changed at all. *)
Theorem hook_tables_only_gain_defaults : forall cfg s w r w',
  event_loop cfg s w = (r, w') ->
  up_hooks w' = up_hooks w
  /\ hooks_grow (down_hooks w) (down_hooks w')
  /\ (default_factory (down_hooks w) = None ->
      forall k, Dict.get (entries (down_hooks w')) k
                = Dict.get (entries (down_hooks w)) k).
Proof.
  intros cfg s w r w' H.
  assert (G : up_hooks w' = up_hooks w
              /\ hooks_grow (down_hooks w) (down_hooks w')).
  { revert w H. induction s as [|e s IH]; intros w H.
    - injection H as <- <-. split; [reflexivity|apply hooks_grow_refl].
    - rewrite event_loop_cons in H.
      destruct (iteration cfg e w) as [r1 w1] eqn:E.
      destruct (iteration_hooks _ _ _ _ _ E) as [U1 D1].
      destruct r1 as [[]|x]; try (injection H as <- <-; auto).
      destruct (IH _ H) as [U D]. split; [congruence|].
      eapply hooks_grow_trans; eauto. }
  destruct G as [U D]. split; [exact U|]. split; [exact D|].
  intros F k. destruct D as (_ & K & N).
  destruct (Dict.get (entries (down_hooks w')) k) as [cb|] eqn:G'.
  - destruct (N _ _ G') as [G|G]; [now rewrite G|congruence].
  - destruct (Dict.get (entries (down_hooks w)) k) as [cb|] eqn:G;
      [|reflexivity].
    apply K in G. congruence.
Qed.

(** *** The delays are not negative *)

Definition delays_nonnegative (w : world) : Prop :=
  forall k, 0 <= elapsed w k.

Lemma tick_key_delays_nonnegative : forall cfg c w r w',
  tick_key cfg c w = (r, w') ->
  0 <= select_timeout_ms cfg ->
  delays_nonnegative w -> delays_nonnegative w'.
Proof.
  intros cfg c w r w' H T0 I k. specialize (I k).
  destruct (String.eqb_spec k c) as [->|N].
  - destruct (is_pressed w c) eqn:P.
    + destruct (tick_key_pressed _ _ _ _ _ H P) as (D & _). lia.
    + destruct (tick_key_unpressed _ _ _ _ _ H P) as (_ & _ & _ & D & _). lia.
  - destruct (tick_key_other _ _ _ _ _ _ H N) as (_ & _ & D & _). lia.
Qed.

Lemma on_event_delays_nonnegative : forall c w r w',
  on_event c w = (r, w') ->
  delays_nonnegative w -> delays_nonnegative w'.
Proof.
  intros c w r w' E I k.
  destruct (String.eqb_spec k c) as [->|N].
  - destruct (on_event_same _ _ _ _ E) as (D & _). lia.
  - destruct (on_event_other _ _ _ _ _ E N) as (_ & _ & D & _).
    rewrite D. exact (I k).
Qed.

Lemma on_tick_delays_nonnegative : forall cfg w r w',
  on_tick cfg w = (r, w') ->
  0 <= select_timeout_ms cfg ->
  delays_nonnegative w -> delays_nonnegative w'.
Proof.
  intros cfg w r w' E T0. rewrite on_tick_eq in E. revert E.
  generalize (Dict.keys (pressed w)) as ks. revert w r w'.
  intros w r w' ks. revert w r w'.
  induction ks as [|c ks IH]; intros w1 r1 w3 F I1.
  - now injection F as <- <-.
  - step_for_each F w4 E4;
      apply tick_key_delays_nonnegative in E4; auto.
    + eapply IH; eauto.
    + now injection F as <- <-.
Qed.

Lemma iteration_delays_nonnegative : forall cfg e w r w',
  iteration cfg e w = (r, w') ->
  0 <= select_timeout_ms cfg ->
  delays_nonnegative w -> delays_nonnegative w'.
Proof.
  intros cfg e w r w' H T0 I.
  destruct (iteration_cases _ _ _ _ _ H)
    as [(c & r0 & w2 & _ & _ & E & _ & ->)
       |[(_ & _ & ->)
        |[(r0 & w2 & _ & _ & E & _ & ->)
         |(x & t & w2 & _ & _ & _ & -> & W)]]].
  - exact (on_event_delays_nonnegative _ _ _ _ E I).
  - exact I.
  - exact (on_tick_delays_nonnegative _ _ _ _ E T0 I).
  - destruct W as [->|[(c & r0 & _ & E)|(r0 & E)]].
    + exact I.
    + exact (on_event_delays_nonnegative _ _ _ _ E I).
    + exact (on_tick_delays_nonnegative _ _ _ _ E T0 I).
Qed.

(** With the automatic timeout, or with a timeout that is not negative, no
    delay counter is ever negative, however the loop ends. *)
Theorem delays_never_negative :
  forall up down init repeat timeout script t r w',
  timeout = -1 \/ 0 <= timeout ->
  select_key_events up down init repeat timeout script t = (r, w') ->
  forall k, 0 <= elapsed w' k.
Proof.
  intros up down init rep tmo script t r w' Ht H.
  unfold select_key_events in H.
  assert (T0 : 0 <= resolve_timeout tmo rep).
  { unfold resolve_timeout. destruct (Z.eqb_spec tmo (-1)).
    - destruct (Z.leb_spec (rep / 4) 0); lia.
    - lia. }
  set (cfg := mk_config init rep (resolve_timeout tmo rep)) in *.
  assert (G : forall s w, event_loop cfg s w = (r, w') ->
                          delays_nonnegative w -> delays_nonnegative w').
  { induction s as [|e s IH]; intros w E I.
    - now injection E as <- <-.
    - rewrite event_loop_cons in E.
      destruct (iteration cfg e w) as [r1 w1] eqn:E1.
      apply iteration_delays_nonnegative in E1; [|exact T0|exact I].
      destruct r1 as [[]|x]; try (now injection E as <- <-).
      eapply IH; eauto. }
  apply (G _ _ H). intros k. cbn. lia.
Qed.

(** *** Callbacks that raise, and missing release hooks *)

(** A callback that raises ends the loop before the state of its key
    changes: after a raising press hook the key is not pressed, and after a
    raising release hook it still is; in both cases the call is the last one
    made. *)
Theorem raising_callback_aborts_before_state_change : forall cfg X cb w,
  cb_raises cb = true ->
  (X <> EOT ->
   is_pressed w X = false ->
   Dict.get (entries (up_hooks w)) X = Some cb ->
   forall rest, exists w',
     event_loop cfg (Input X :: rest) w = (Raise HookError, w')
     /\ is_pressed w' X = false
     /\ fired w' = fired w ++ [(Press, X, cb)])
  /\ (is_pressed w X = true ->
      expired cfg (is_first w X) (elapsed w X + select_timeout_ms cfg) = true ->
      Dict.get (entries (down_hooks w)) X = Some cb ->
      exists w',
        tick_key cfg X w = (Raise HookError, w')
        /\ is_pressed w' X = true
        /\ fired w' = fired w ++ [(Release, X, cb)]).
Proof.
  intros cfg X cb w Rz. split.
  - intros N U G rest. rewrite event_loop_cons.
    rewrite (iteration_event cfg (Input X) w X eq_refl N).
    destruct (on_event X (acquired w)) as [r w2] eqn:H.
    unfold acquired in H.
    run_ops H; simp_view; try congruence;
      repeat match goal with
             | E : Some _ = Some _ |- _ => injection E as E; subst
             end;
      subst; cbn [negb continue_after] in *;
      try congruence; try discriminate;
      (eexists; split; [reflexivity|]; split; [|reflexivity]);
      unfold restored; simp_view; rewrite ?get_set_same; reflexivity.
  - intros P Ex G. unfold expired in Ex.
    destruct (tick_key cfg X w) as [r w'] eqn:H.
    run_ops H; simp_view; try congruence; try lia;
      repeat match goal with
             | E : Some _ = Some _ |- _ => injection E as E; subst
             end;
      try congruence; try lia;
      (eexists; split; [reflexivity|]; split; [|reflexivity]);
      simp_view; rewrite ?get_set_same; reflexivity.
Qed.

(** The lookup of the release hook is not guarded: when the table of
    release hooks is a plain [dict] without the key, the release decision
    raises [KeyError], calls nothing, and leaves the key pressed. *)
Theorem missing_release_hook_raises_KeyError : forall cfg X w,
  is_pressed w X = true ->
  expired cfg (is_first w X) (elapsed w X + select_timeout_ms cfg) = true ->
  Dict.get (entries (down_hooks w)) X = None ->
  default_factory (down_hooks w) = None ->
  exists w',
    tick_key cfg X w = (Raise (KeyError X), w')
    /\ is_pressed w' X = true
    /\ fired w' = fired w
    /\ down_hooks w' = down_hooks w.
Proof.
  intros cfg X w P Ex G F. unfold expired in Ex.
  destruct (tick_key cfg X w) as [r w'] eqn:H.
  run_ops H; simp_view; try congruence; try lia;
    (eexists; split; [reflexivity|]; split; [|split; reflexivity]);
    simp_view; rewrite ?get_set_same; reflexivity.
Qed.

End Program.

Arguments mk_terminal {attrs} _ _.
Arguments t_attrs {attrs} _.
Arguments t_flags {attrs} _.
Arguments fired {attrs} _.
Arguments term {attrs} _.
Arguments initial_world {attrs} _ _ _.
Arguments is_pressed {attrs} _ _.
Arguments is_first {attrs} _ _.
Arguments elapsed {attrs} _ _.
Arguments wf {attrs} _.
Arguments hooks_ok {attrs} _.
Arguments on_event {attrs} _ _.
Arguments tick_key {attrs} _ _ _.
Arguments up_hooks {attrs} _.
Arguments down_hooks {attrs} _.

(** ** The program on a Linux terminal *)

(** The terminal mode reduced to its local flags ([lflag]);
    [tty.setcbreak] clears [ECHO | ICANON] there.  [os.O_NONBLOCK] is
    [0o4000]. *)
Definition linux_cbreak (lflag : Z) : Z := Z.land lflag (Z.lnot (Z.lor 8 2)).

Definition linux_O_NONBLOCK : Z := 2048.

(** A terminal in canonical mode with echo, its descriptor opened
    read-write and blocking. *)
Definition tty0 : terminal Z := {| t_attrs := 35387; t_flags := 2 |}.

(** The same with [O_NONBLOCK] set on the descriptor. *)
Definition tty_nonblocking : terminal Z := {| t_attrs := 35387; t_flags := 2050 |}.

(** Lines 96-104: the hook tables of the program. *)
Definition KEY_UP : string := String (Ascii.ascii_of_nat 27) "[A".
Definition KEY_DOWN : string := String (Ascii.ascii_of_nat 27) "[B".

Definition program_up_hooks : registry :=
  register (register new_hooks KEY_UP (mk_callback ["Up pressed"%string] false))
           KEY_DOWN (mk_callback ["Down pressed"%string] false).

Definition program_down_hooks : registry :=
  register (register new_hooks KEY_UP (mk_callback ["Up released"%string] false))
           KEY_DOWN (mk_callback ["Down released"%string] false).

Definition world0 : world Z :=
  initial_world program_up_hooks program_down_hooks tty0.

(** The samples of the calibration example: the space bar held, events at
    0, 300, 340, 380 and 420 ms, that is at the [float]s [0.0], [0.3],
    [0.34], [0.38] and [0.42]. *)
Definition example_samples : list (string * float) :=
  [(" "%string, float_of_ratio 0 1); (" "%string, float_of_ratio 3 10);
   (" "%string, float_of_ratio 34 100); (" "%string, float_of_ratio 38 100);
   (" "%string, float_of_ratio 42 100)].

(** Events at 0, 375, 750 and 1125 ms. *)
Definition tie_samples : list (string * float) :=
  [(" "%string, float_of_ratio 0 1); (" "%string, float_of_ratio 375 1000);
   (" "%string, float_of_ratio 750 1000); (" "%string, float_of_ratio 1125 1000)].

(** The loop after one event for the key ["a"], with the default delays,
    and after one event for the key ["x"], which has no callbacks, with
    delays of 1 ms and 8 ms and a timeout of 2 ms. *)
Definition held_a : world Z :=
  snd (event_loop Z linux_cbreak linux_O_NONBLOCK (mk_config 270 40 10)
                  [Input "a"] world0).


(** The loop with a plain [dict] without entries as table of release hooks,
    after one event for the key ["x"]. *)
Definition held_x_plain_dict : world Z :=
  snd (select_key_events Z linux_cbreak linux_O_NONBLOCK
         program_up_hooks (mk_registry [] None) 1 8 2 [Input "x"] tty0).

(** ** The theorems at work *)


(** The arithmetic is the one of [float]s: with a margin of 10 percent an
    interval of 375 ms is scaled to [412.50000000000006] and rounded to 413
    (the exact product 412.5 would be rounded to 412). *)
Lemma calibrate_rounds_floats :
  calibrate_keyboard_delays Z linux_cbreak false 4 10
    (stdin_of tie_samples) (Some ""%string) tty0
  = (Ret (413, 413), tty0).
Proof. vm_compute. reflexivity. Qed.

Lemma calibrate_two_samples_witness :
  2 < 3
  /\ calibrate_keyboard_delays Z linux_cbreak false 2 4
       (stdin_of example_samples) (Some ""%string) tty0
     = (Raise ZeroDivisionError, tty0).
Proof.
  split; [lia|].
  destruct (calibrate_fails_below_3_samples Z linux_cbreak false 2 4
              (stdin_of example_samples) (Some ""%string) tty0 ltac:(lia))
    as (e & E & _ & H).
  specialize (H eq_refl). vm_compute in H. rewrite E, H. reflexivity.
Defined.

Lemma auto_timeout_witness :
  0 < 40 /\ resolve_timeout (-1) 40 = 10 /\ 0 < resolve_timeout (-1) 40.
Proof.
  split; [lia|].
  destruct (auto_timeout_is_max_1_quarter Z linux_cbreak linux_O_NONBLOCK 40
              ltac:(lia)) as (A & B & _).
  split; [exact A|exact B].
Defined.

Lemma sentinel_restores_blocking_terminal_witness :
  let x := event_loop Z linux_cbreak linux_O_NONBLOCK (mk_config 270 40 10)
                      [Input EOT] world0 in
  [Input EOT] <> []
  /\ Forall (fun e => session_calls_succeed e = true) [Input EOT]
  /\ Z.land (t_flags (term world0)) linux_O_NONBLOCK = 0
  /\ term (snd x) = term world0.
Proof.
  intros x.
  assert (S : Forall (fun e => session_calls_succeed e = true) [Input EOT])
    by (apply Forall_cons; [reflexivity|apply Forall_nil]).
  split; [discriminate|]. split; [exact S|]. split; [vm_compute; reflexivity|].
  apply (session_restored_with_blocking_forced Z linux_cbreak linux_O_NONBLOCK
           (mk_config 270 40 10) [Input EOT] world0 (fst x) (snd x)
           (surjective_pairing x));
    [discriminate|exact S|vm_compute; reflexivity].
Defined.

(** C5 as stated fails: a descriptor that was non-blocking when the loop
    started is blocking when the function returns. *)
Lemma nonblocking_stdin_is_left_blocking :
  let x := select_key_events Z linux_cbreak linux_O_NONBLOCK
             program_up_hooks program_down_hooks 270 40 (-1)
             [Input EOT] tty_nonblocking in
  fst x = Ret Returned
  /\ t_flags (term (snd x)) = 2
  /\ term (snd x) <> tty_nonblocking.
Proof.
  vm_compute. split; [reflexivity|]. split; [reflexivity|discriminate].
Qed.

Lemma released_key_witness :
  let x := select_key_events Z linux_cbreak linux_O_NONBLOCK
             program_up_hooks program_down_hooks 20 8 (-1)
             ([Input "a"; Input "a"] ++ repeat Timeout 5) tty0 in
  is_pressed (snd x) "a" = false /\ is_first (snd x) "a" = true.
Proof.
  intros x. split; [vm_compute; reflexivity|].
  apply (released_key_is_on_first_keypress Z linux_cbreak linux_O_NONBLOCK
           program_up_hooks program_down_hooks 20 8 (-1)
           ([Input "a"; Input "a"] ++ repeat Timeout 5) tty0
           (fst x) (snd x) (surjective_pairing x)).
  vm_compute; reflexivity.
Defined.

Lemma delay_witness :
  let cfg := mk_config 270 40 10 in
  let x := iteration Z linux_cbreak linux_O_NONBLOCK cfg Timeout held_a in
  wf held_a
  /\ is_pressed held_a "a" = true
  /\ is_pressed held_a KEY_UP = false
  /\ elapsed (snd x) "a" = elapsed held_a "a" + 10
  /\ elapsed (snd x) KEY_UP = elapsed held_a KEY_UP.
Proof.
  intros cfg x.
  destruct (delay_accumulates_only_while_pressed Z linux_cbreak linux_O_NONBLOCK
              cfg Timeout held_a (fst x) (snd x) (surjective_pairing x))
    as [HT _].
  destruct (HT eq_refl) as [HU HP].
  split; [vm_compute; reflexivity|].
  split; [vm_compute; reflexivity|].
  split; [vm_compute; reflexivity|].
  split.
  - apply HP; vm_compute; reflexivity.
  - apply HU. vm_compute; reflexivity.
Defined.



Lemma first_hold_witness :
  let cfg := mk_config 20 8 2 in
  let s1 := repeat Timeout 11 in
  let s2 := [Timeout; Input "b"; Timeout] in
  let x := event_loop Z linux_cbreak linux_O_NONBLOCK cfg
                      (Input "a" :: s1 ++ s2) world0 in
  0 < kbd_init_delay_ms cfg
  /\ wf world0
  /\ is_pressed world0 "a" = false
  /\ kbd_init_delay_ms cfg < ticked_ms cfg s1
  /\ fst x = Ret Running
  /\ count_calls Release "a" (fired (snd x)) = 1%nat
  /\ is_pressed (snd x) "a" = false.
Proof.
  intros cfg s1 s2 x.
  assert (H1 : 0 < kbd_init_delay_ms cfg) by (vm_compute; reflexivity).
  assert (H2 : wf world0) by (vm_compute; reflexivity).
  assert (H3 : "a"%string <> EOT) by discriminate.
  assert (H4 : is_pressed world0 "a" = false) by (vm_compute; reflexivity).
  assert (H5 : Forall (fun e => reads e <> Some "a"%string) (s1 ++ s2))
    by (unfold s1, s2; cbn [repeat app];
        repeat (apply Forall_cons; [cbv; discriminate|]); apply Forall_nil).
  assert (H6 : kbd_init_delay_ms cfg < ticked_ms cfg s1)
    by (vm_compute; reflexivity).
  assert (R : fst x = Ret Running) by (vm_compute; reflexivity).
  destruct (first_hold_release_fires_once Z linux_cbreak linux_O_NONBLOCK
              cfg "a" world0 s1 s2 H1 H2 H3 H4 H5 H6) as [HA _].
  destruct (HA (snd x)) as [C P].
  { rewrite <- R. apply surjective_pairing. }
  split; [exact H1|]. split; [exact H2|]. split; [exact H4|].
  split; [exact H6|]. split; [exact R|]. split; [exact C|exact P].
Defined.

Lemma sustained_repeat_witness :
  let cfg := mk_config 270 40 10 in
  let x := event_loop Z linux_cbreak linux_O_NONBLOCK cfg
                      (cycles KEY_UP 2 10) world0 in
  wf world0
  /\ is_pressed world0 KEY_UP = false
  /\ Z.of_nat 2 * select_timeout_ms cfg <= kbd_repeat_delay_ms cfg / 2
  /\ Z.of_nat 2 * select_timeout_ms cfg <= kbd_init_delay_ms cfg
  /\ fst x = Ret Running
  /\ count_calls Release KEY_UP (fired (snd x)) = 0%nat
  /\ count_calls Press KEY_UP (fired (snd x)) = 1%nat
  /\ is_pressed (snd x) KEY_UP = true.
Proof.
  intros cfg x.
  assert (H1 : wf world0) by (vm_compute; reflexivity).
  assert (H2 : KEY_UP <> EOT) by discriminate.
  assert (H3 : is_pressed world0 KEY_UP = false) by (vm_compute; reflexivity).
  assert (H4 : Dict.get (entries (up_hooks world0)) KEY_UP
               = Some (mk_callback ["Up pressed"%string] false))
    by (vm_compute; reflexivity).
  assert (H5 : 0 <= select_timeout_ms cfg) by (vm_compute; discriminate).
  assert (H6 : Z.of_nat 2 * select_timeout_ms cfg <= kbd_repeat_delay_ms cfg / 2)
    by (vm_compute; discriminate).
  assert (H7 : Z.of_nat 2 * select_timeout_ms cfg <= kbd_init_delay_ms cfg)
    by (vm_compute; discriminate).
  assert (R : fst x = Ret Running) by (vm_compute; reflexivity).
  destruct (sustained_repeat_keeps_key_pressed Z linux_cbreak linux_O_NONBLOCK
              cfg KEY_UP _ 2%nat 9%nat world0 H1 H2 H3 H4 H5 H6 H7) as [HA _].
  destruct (HA (snd x)) as (C & Cp & P).
  { rewrite <- R. apply surjective_pairing. }
  split; [exact H1|]. split; [exact H3|]. split; [exact H6|].
  split; [exact H7|]. split; [exact R|].
  split; [exact C|]. split; [exact Cp|exact P].
Defined.

(** C3 as stated fails: with an initial delay below half the repeat delay,
    the first gap already passes the initial delay, and every event of the
    sequence is a press followed by a release. *)
Lemma short_initial_delay_releases_during_repeat :
  let x := select_key_events Z linux_cbreak linux_O_NONBLOCK
             program_up_hooks program_down_hooks 10 100 (-1)
             (cycles KEY_UP 2 10) tty0 in
  resolve_timeout (-1) 100 = 25
  /\ 2 * 25 = 100 / 2
  /\ fst x = Ret Running
  /\ count_calls Release KEY_UP (fired (snd x)) = 10%nat
  /\ count_calls Press KEY_UP (fired (snd x)) = 10%nat.
Proof. vm_compute. repeat split. Qed.

(** ** The further properties at work *)

Arguments key_of {attrs} _ _.

(** The loop after a first event and a repeat for the key ["a"], with delays
    of 20 ms and 8 ms and a timeout of 2 ms. *)
Definition repeating_a : world Z :=
  snd (event_loop Z linux_cbreak linux_O_NONBLOCK (mk_config 20 8 2)
                  [Input "a"; Input "a"] world0).

(** A table of press hooks whose callback for ["a"] raises. *)
Definition world_raising_press : world Z :=
  initial_world (register new_hooks "a" (mk_callback [] true)) new_hooks tty0.

Lemma calibration_ignores_characters_witness :
  calibrate_keyboard_delays Z linux_cbreak false 5 0
    (fun i => (EmptyString, snd (stdin_of example_samples i)))
    (Some ""%string) tty0
  = (Ret (300, 40), tty0).
Proof.
  rewrite (calibration_ignores_characters Z linux_cbreak false 5 0
             (stdin_of example_samples)
             (fun i => (EmptyString, snd (stdin_of example_samples i)))
             (Some ""%string) tty0 (fun i => eq_refl)).
  vm_compute. reflexivity.
Defined.

Lemma key_machine_witness :
  let cfg := mk_config 20 8 2 in
  let s := [Input "a"; Timeout; Input "b"; Input "a"] ++ repeat Timeout 5 in
  let x := event_loop Z linux_cbreak linux_O_NONBLOCK cfg s world0 in
  wf world0
  /\ fst x = Ret Running
  /\ key_of (snd x) "a" = mk_key false true 10 0 1.
Proof.
  intros cfg s x.
  assert (Wf : wf world0) by (vm_compute; reflexivity).
  assert (R : fst x = Ret Running) by (vm_compute; reflexivity).
  split; [exact Wf|]. split; [exact R|].
  rewrite (loop_refines_key_machine Z linux_cbreak linux_O_NONBLOCK cfg "a" s
             world0 (snd x) Wf).
  - vm_compute. reflexivity.
  - rewrite <- R. apply surjective_pairing.
Defined.

Lemma repeat_gap_release_witness :
  let cfg := mk_config 20 8 2 in
  let s := repeat Timeout 5 in
  let x := event_loop Z linux_cbreak linux_O_NONBLOCK cfg s repeating_a in
  wf repeating_a
  /\ is_pressed repeating_a "a" = true
  /\ is_first repeating_a "a" = false
  /\ fst x = Ret Running
  /\ is_pressed (snd x) "a" = false
  /\ is_first (snd x) "a" = true
  /\ count_calls Release "a" (fired (snd x)) = 1%nat.
Proof.
  intros cfg s x.
  assert (Wf : wf repeating_a) by (vm_compute; reflexivity).
  assert (P : is_pressed repeating_a "a" = true) by (vm_compute; reflexivity).
  assert (F : is_first repeating_a "a" = false) by (vm_compute; reflexivity).
  assert (Q : Forall (fun e => reads e <> Some "a"%string) s)
    by (unfold s; cbn [repeat];
        repeat (apply Forall_cons; [cbv; discriminate|]); apply Forall_nil).
  assert (T0 : 0 <= select_timeout_ms cfg) by (vm_compute; discriminate).
  assert (Ex : expired cfg (is_first repeating_a "a") (elapsed repeating_a "a")
               = false) by (vm_compute; reflexivity).
  assert (R : fst x = Ret Running) by (vm_compute; reflexivity).
  assert (E : expired cfg (is_first repeating_a "a")
                (elapsed repeating_a "a" + ticked_ms cfg s) = true)
    by (vm_compute; reflexivity).
  destruct (held_key_released_iff_threshold_passed Z linux_cbreak
              linux_O_NONBLOCK cfg "a" s repeating_a (snd x) Wf Q T0 P Ex)
    as (A & _ & C & D & _).
  { rewrite <- R. apply surjective_pairing. }
  rewrite E in A, C.
  split; [exact Wf|]. split; [exact P|]. split; [exact F|]. split; [exact R|].
  split; [exact A|]. split; [exact (D E)|exact C].
Defined.

Lemma pressed_within_initial_delay_witness :
  let cfg := mk_config 20 8 2 in
  let s := repeat Timeout 10 in
  let x := event_loop Z linux_cbreak linux_O_NONBLOCK cfg (Input "a" :: s)
                      world0 in
  ticked_ms cfg s = 20
  /\ fst x = Ret Running
  /\ is_pressed (snd x) "a" = true
  /\ count_calls Release "a" (fired (snd x)) = 0%nat.
Proof.
  intros cfg s x.
  assert (Wf : wf world0) by (vm_compute; reflexivity).
  assert (N : "a"%string <> EOT) by discriminate.
  assert (U : is_pressed world0 "a" = false) by (vm_compute; reflexivity).
  assert (Q : Forall (fun e => reads e <> Some "a"%string) s)
    by (unfold s; cbn [repeat];
        repeat (apply Forall_cons; [cbv; discriminate|]); apply Forall_nil).
  assert (T0 : 0 <= select_timeout_ms cfg) by (vm_compute; discriminate).
  assert (I0 : 0 <= kbd_init_delay_ms cfg) by (vm_compute; discriminate).
  assert (R : fst x = Ret Running) by (vm_compute; reflexivity).
  destruct (pressed_until_initial_delay_passed Z linux_cbreak linux_O_NONBLOCK
              cfg "a" s world0 (snd x) Wf N U Q T0 I0) as (A & B & _).
  { rewrite <- R. apply surjective_pairing. }
  split; [vm_compute; reflexivity|]. split; [exact R|].
  split; [exact A|exact B].
Defined.

Lemma balanced_calls_witness :
  let x := select_key_events Z linux_cbreak linux_O_NONBLOCK
             program_up_hooks program_down_hooks 10 100 (-1)
             (cycles KEY_UP 2 3 ++ [Input KEY_UP]) tty0 in
  fst x = Ret Running
  /\ is_pressed (snd x) KEY_UP = true
  /\ count_calls Release KEY_UP (fired (snd x)) = 3%nat
  /\ count_calls Press KEY_UP (fired (snd x)) = 4%nat.
Proof.
  intros x.
  assert (R : fst x = Ret Running) by (vm_compute; reflexivity).
  assert (P : is_pressed (snd x) KEY_UP = true) by (vm_compute; reflexivity).
  assert (C : count_calls Release KEY_UP (fired (snd x)) = 3%nat)
    by (vm_compute; reflexivity).
  split; [exact R|]. split; [exact P|]. split; [exact C|].
  rewrite (press_and_release_calls_balance Z linux_cbreak linux_O_NONBLOCK
             program_up_hooks program_down_hooks 10 100 (-1)
             (cycles KEY_UP 2 3 ++ [Input KEY_UP]) tty0 Running (snd x) KEY_UP).
  - rewrite C, P. reflexivity.
  - rewrite <- R. apply surjective_pairing.
Defined.

Lemma no_release_without_timeout_witness :
  let cfg := mk_config 270 40 10 in
  let s := [Input "a"; Input "b"; Input "a"; Input "b"] in
  let x := event_loop Z linux_cbreak linux_O_NONBLOCK cfg s held_a in
  wf held_a
  /\ fst x = Ret Running
  /\ count_calls Release "a" (fired (snd x))
     = count_calls Release "a" (fired held_a).
Proof.
  intros cfg s x.
  assert (Wf : wf held_a) by (vm_compute; reflexivity).
  assert (F : Forall (fun e => is_timeout e = false) s)
    by (repeat (apply Forall_cons; [reflexivity|]); apply Forall_nil).
  assert (R : fst x = Ret Running) by (vm_compute; reflexivity).
  split; [exact Wf|]. split; [exact R|].
  apply (release_hooks_only_on_timeouts Z linux_cbreak linux_O_NONBLOCK cfg s
           held_a (snd x) Wf F).
  rewrite <- R. apply surjective_pairing.
Defined.

(** The end of the input on a terminal that has hung up: [read] returns
    the empty string and [termios.tcsetattr] raises. *)
Definition hangup : io :=
  mk_io false false false (Some true) (Some EmptyString) true false.

Lemma hangup_witness :
  let x := iteration Z linux_cbreak linux_O_NONBLOCK (mk_config 270 40 10)
                     hangup world0 in
  fst x = Raise TermiosError
  /\ t_flags (term (snd x)) = 2050
  /\ t_attrs (term (snd x)) = linux_cbreak 35387.
Proof.
  intros x.
  destruct (failing_terminal_calls Z linux_cbreak linux_O_NONBLOCK
              (mk_config 270 40 10) hangup world0 (fst x) (snd x)
              (surjective_pairing x)) as (_ & _ & H & _).
  exact (H eq_refl eq_refl eq_refl).
Defined.

Lemma hook_tables_witness :
  let x := event_loop Z linux_cbreak linux_O_NONBLOCK (mk_config 1 8 2)
                      [Input "x"; Timeout; Timeout] world0 in
  up_hooks (snd x) = up_hooks world0
  /\ Dict.get (entries (down_hooks (snd x))) KEY_UP
     = Some (mk_callback ["Up released"%string] false)
  /\ Dict.get (entries (down_hooks (snd x))) "x" = Some noop.
Proof.
  intros x.
  destruct (hook_tables_only_gain_defaults Z linux_cbreak linux_O_NONBLOCK
              (mk_config 1 8 2) [Input "x"; Timeout; Timeout] world0
              (fst x) (snd x) (surjective_pairing x)) as (U & (_ & K & _) & _).
  split; [exact U|]. split.
  - apply K. vm_compute. reflexivity.
  - vm_compute. reflexivity.
Defined.

Lemma delays_nonnegative_witness :
  let x := select_key_events Z linux_cbreak linux_O_NONBLOCK
             program_up_hooks program_down_hooks 270 40 (-1)
             [Input "a"; Timeout; Timeout; Input "b"; Timeout] tty0 in
  elapsed (snd x) "a" = 30 /\ 0 <= elapsed (snd x) "a".
Proof.
  intros x. split; [vm_compute; reflexivity|].
  exact (delays_never_negative Z linux_cbreak linux_O_NONBLOCK
           program_up_hooks program_down_hooks 270 40 (-1)
           [Input "a"; Timeout; Timeout; Input "b"; Timeout] tty0
           (fst x) (snd x) (or_introl eq_refl) (surjective_pairing x) "a"%string).
Defined.

Lemma raising_press_hook_witness :
  exists w',
    event_loop Z linux_cbreak linux_O_NONBLOCK (mk_config 270 40 10)
               [Input "a"; Timeout] world_raising_press
    = (Raise HookError, w')
    /\ is_pressed w' "a" = false
    /\ fired w' = fired world_raising_press
                  ++ [(Press, "a"%string, mk_callback [] true)].
Proof.
  destruct (raising_callback_aborts_before_state_change Z linux_cbreak
              linux_O_NONBLOCK (mk_config 270 40 10) "a"
              (mk_callback [] true) world_raising_press eq_refl) as [HP _].
  apply HP.
  - discriminate.
  - vm_compute. reflexivity.
  - vm_compute. reflexivity.
Defined.

Lemma missing_release_hook_witness :
  exists w',
    tick_key (mk_config 1 8 2) "x" held_x_plain_dict
    = (Raise (KeyError "x"), w')
    /\ is_pressed w' "x" = true
    /\ fired w' = fired held_x_plain_dict
    /\ down_hooks w' = down_hooks held_x_plain_dict.
Proof.
  apply (missing_release_hook_raises_KeyError Z (mk_config 1 8 2) "x"
           held_x_plain_dict); vm_compute; reflexivity.
Defined.
